(** * Quantum states over a symbolic algebra engine: [states.py]

    A shallow embedding of [PureState] and [MixedState] from [states.py].
    The program is a thin layer of control flow over SymPy: every scalar is
    a SymPy expression, every ket and operator a SymPy [Matrix].  SymPy is
    not part of the program, so the scalar operations the program calls are
    gathered in a record [Provider]; matrices, which the program takes apart
    entry by entry, are modelled concretely on top of it.  Exceptions are
    values of [PyError] carried by the error monad [result].

    [PureState.normalize] divides by [norm**0.5], a power with a float
    exponent that SymPy evaluates in binary floating point; it has no exact
    counterpart among the operations of [Provider] and is left out.  So is
    [PureState.tensor], which wraps an unevaluated [KroneckerProduct]
    expression of SymPy rather than a matrix. *)

From Stdlib Require Import String.
From Stdlib Require Import List Arith Bool Lia Permutation.
From Stdlib Require Import QArith Qcanon Field Ring Lqa.
From Stdlib Require PrimFloat.
Import ListNotations.
Close Scope Qc_scope.
Close Scope Q_scope.


(** ** Exceptions *)

(** The exceptions the program and the matrix library raise.  The spec's
    names for the two the program raises itself are given below. *)
Inductive PyError : Type :=
| ValueError (msg : string)
| RuntimeError (msg : string)
| AttributeError (attr : string)
| IndexError
| ShapeError
| NonSquareMatrixError
| MatrixError
| DimensionMismatchError
| InvalidSubsystemError.

(** [raise ValueError("Probabilities must sum to 1.")] in
    [MixedState.__init__]: the spec's [InvalidEnsembleError]. *)
Definition InvalidEnsembleError : PyError :=
  ValueError "Probabilities must sum to 1.".

(** [raise RuntimeError("All outcome probabilities are zero.")] in
    [MixedState.measure]: the spec's [DegenerateMeasurementError]. *)
Definition DegenerateMeasurementError : PyError :=
  RuntimeError "All outcome probabilities are zero.".

(** The errors the matrix operations raise. *)
Definition matrix_error (e : PyError) : Prop :=
  e = ShapeError \/ e = NonSquareMatrixError.

Definition not_degenerate (e : PyError) : Prop :=
  e <> DegenerateMeasurementError.

Inductive result (T : Type) : Type :=
| Ok (x : T)
| Raise (e : PyError).
Arguments Ok {T} x.
Arguments Raise {T} e.

Definition bind {T U : Type} (c : result T) (k : T -> result U) : result U :=
  match c with
  | Ok x => k x
  | Raise e => Raise e
  end.

Declare Scope py_scope.
Delimit Scope py_scope with py.
Notation "x <- c ;; k" := (bind c (fun x => k))
  (at level 61, c at next level, right associativity) : py_scope.
Open Scope py_scope.

Definition is_ok {T : Type} (c : result T) : bool :=
  match c with Ok _ => true | Raise _ => false end.

(** ** Matrices *)

(** A SymPy [Matrix]: its shape and its entries, row by row. *)
Record Matrix (T : Type) : Type := mkMatrix {
  rows : nat;
  cols : nat;
  data : list (list T)
}.
Arguments mkMatrix {T} rows cols data.
Arguments rows {T} m.
Arguments cols {T} m.
Arguments data {T} m.

Section MatrixShape.
Variable T : Type.

(** The matrix whose entry at [(i, j)] is [f i j]. *)
Definition tabulate (r c : nat) (f : nat -> nat -> T) : Matrix T :=
  mkMatrix r c (map (fun i => map (f i) (seq 0 c)) (seq 0 r)).

(** [M[i, j]], with [d] outside the matrix. *)
Definition entry (d : T) (M : Matrix T) (i j : nat) : T :=
  nth j (nth i (data M) []) d.

(** What every [Matrix] object satisfies: the rows agree with the shape. *)
Definition wf (M : Matrix T) : Prop :=
  length (data M) = rows M /\ Forall (fun r => length r = cols M) (data M).

(** Iterating a [Matrix] ([for x in M], [zip(M, ...)]) yields its entries
    in row-major order. *)
Definition iter_matrix (M : Matrix T) : list T := concat (data M).

(** [Matrix(l)] for a flat list [l]: a column. *)
Definition column (l : list T) : Matrix T :=
  mkMatrix (length l) 1 (map (fun x => [x]) l).

Definition mmap (f : T -> T) (M : Matrix T) : Matrix T :=
  mkMatrix (rows M) (cols M) (map (map f) (data M)).

(** [M.T] *)
Definition transpose (d : T) (M : Matrix T) : Matrix T :=
  tabulate (cols M) (rows M) (fun i j => entry d M j i).

(** Column [j] of [M] as a column matrix. *)
Definition column_of (d : T) (M : Matrix T) (j : nat) : Matrix T :=
  tabulate (rows M) 1 (fun i _ => entry d M i j).
End MatrixShape.
Arguments tabulate {T} r c f.
Arguments entry {T} d M i j.
Arguments wf {T} M.
Arguments iter_matrix {T} M.
Arguments column {T} l.
Arguments mmap {T} f M.
Arguments transpose {T} d M.
Arguments column_of {T} d M j.

(** ** Python lists *)

Section PythonLists.
Variable T : Type.

(** [l] with the element at position [k] replaced by [x]. *)
Fixpoint replace_at (k : nat) (x : T) (l : list T) : list T :=
  match l, k with
  | [], _ => []
  | _ :: rest, O => x :: rest
  | y :: rest, S k' => y :: replace_at k' x rest
  end.

(** The position an index [idx] of a list of length [len] denotes: Python
    counts a negative index from the end. *)
Definition py_index (len : nat) (idx : Z) : option nat :=
  if ((0 <=? idx) && (idx <? Z.of_nat len))%Z then Some (Z.to_nat idx)
  else if ((- Z.of_nat len <=? idx) && (idx <? 0))%Z
       then Some (Z.to_nat (idx + Z.of_nat len))
       else None.

(** [l[idx] = x]; [IndexError] outside the list. *)
Definition py_setitem (l : list T) (idx : Z) (x : T) : result (list T) :=
  match py_index (length l) idx with
  | Some k => Ok (replace_at k x l)
  | None => Raise IndexError
  end.
End PythonLists.
Arguments replace_at {T} k x l.
Arguments py_setitem {T} l idx x.

(** [max(...)] of integers; [ValueError] on an empty sequence. *)
Definition py_max (l : list Z) : result Z :=
  match l with
  | [] => Raise (ValueError "max() arg is an empty sequence")
  | x :: rest => Ok (fold_left Z.max rest x)
  end.

(** ** The algebra engine *)

(** The operations of SymPy the program uses on scalars, and [diagonalize].
    [ne0 x] is Python's [x != 0] on a SymPy expression: structural, a plain
    boolean.  [diagonalize M] is [M.diagonalize()], which returns the pair
    [(P, D)] -- the matrix [P] of eigenvectors first, the diagonal matrix
    [D] of eigenvalues second -- and raises [MatrixError] ([None] here)
    when [M] is not diagonalizable. *)
Record Provider : Type := {
  Scalar : Type;
  zero : Scalar;
  one : Scalar;
  add : Scalar -> Scalar -> Scalar;
  sub : Scalar -> Scalar -> Scalar;
  mul : Scalar -> Scalar -> Scalar;
  div : Scalar -> Scalar -> Scalar;
  conjugate : Scalar -> Scalar;
  simplify : Scalar -> Scalar;
  ne0 : Scalar -> bool;
  diagonalize : Matrix Scalar -> option (Matrix Scalar * Matrix Scalar)
}.

(** ** Matrix arithmetic over a provider *)

Section MatrixArithmetic.
Variable A : Provider.
Local Abbreviation Sc := (Scalar A).
Local Abbreviation Mx := (Matrix (Scalar A)).

(** [sum] of [f 0 .. f (n-1)], accumulated from the left starting at 0. *)
Definition sum_n (n : nat) (f : nat -> Sc) : Sc :=
  fold_left (add A) (map f (seq 0 n)) (zero A).

Definition ent (X : Mx) (i j : nat) : Sc := entry (zero A) X i j.

(** [Matrix.zeros(n)] *)
Definition mzeros (n : nat) : Mx := tabulate n n (fun _ _ => zero A).

(** [eye(n)] *)
Definition identity (n : nat) : Mx :=
  tabulate n n (fun i j => if Nat.eqb i j then one A else zero A).

(** [X * Y]; SymPy raises [ShapeError] on incompatible shapes. *)
Definition mmul (X Y : Mx) : result Mx :=
  if Nat.eqb (cols X) (rows Y)
  then Ok (tabulate (rows X) (cols Y)
             (fun i j => sum_n (cols X) (fun k => mul A (ent X i k) (ent Y k j))))
  else Raise ShapeError.

(** [X + Y] *)
Definition madd (X Y : Mx) : result Mx :=
  if Nat.eqb (rows X) (rows Y) && Nat.eqb (cols X) (cols Y)
  then Ok (tabulate (rows X) (cols X) (fun i j => add A (ent X i j) (ent Y i j)))
  else Raise ShapeError.

(** [p * X] for a scalar [p] *)
Definition mscale (p : Sc) (X : Mx) : Mx := mmap (mul A p) X.

(** [X / s] for a scalar [s]: SymPy multiplies by [1 / s]. *)
Definition mdiv (X : Mx) (s : Sc) : Mx :=
  mmap (fun x => mul A x (div A (one A) s)) X.

(** [X.conjugate()] *)
Definition mconj (X : Mx) : Mx := mmap (conjugate A) X.

(** [X.T] *)
Definition mT (X : Mx) : Mx := transpose (zero A) X.

(** [X.conjugate().T] *)
Definition dagger (X : Mx) : Mx := mT (mconj X).

(** [X.trace()]; SymPy raises [NonSquareMatrixError] off squares. *)
Definition mtrace (X : Mx) : result Sc :=
  if Nat.eqb (rows X) (cols X)
  then Ok (sum_n (rows X) (fun i => ent X i i))
  else Raise NonSquareMatrixError.

(** [simplify(X)] on a matrix simplifies every entry. *)
Definition msimplify (X : Mx) : Mx := mmap (simplify A) X.

(** [X.col_insert(pos, Y)] for a matrix [X]: an empty [X] gives [Y];
    otherwise the row counts must agree. *)
Definition matrix_col_insert (X : Mx) (pos : nat) (Y : Mx) : result Mx :=
  if Nat.eqb (rows X * cols X) 0 then Ok Y
  else if negb (Nat.eqb (rows X) (rows Y)) then Raise ShapeError
  else
    let pos := Nat.min pos (cols X) in
    Ok (tabulate (rows X) (cols X + cols Y)
          (fun i j => if Nat.ltb j pos then ent X i j
                      else if Nat.ltb j (pos + cols Y) then ent Y i (j - pos)
                      else ent X i (j - cols Y))).
End MatrixArithmetic.

(** ** [states.py] *)

Section States.
Variable A : Provider.
Local Abbreviation Sc := (Scalar A).
Local Abbreviation Mx := (Matrix (Scalar A)).

(** *** [class PureState] *)

Record PureState : Type := mkPureState { vec : Mx }.

(** [PureState.__init__] *)
Definition PureState_init (amplitudes : Mx) : result PureState :=
  if negb (Nat.eqb (cols amplitudes) 1)
  then Raise (ValueError "Amplitude must be a column vector.")
  else Ok (mkPureState (msimplify A amplitudes)).

(** [Matrix(amp).reshape(dim, 1)]: [Matrix] of a flat list is a column (the
    0 x 0 matrix for the empty list), and [reshape] raises [ValueError]
    unless the number of entries is [dim * 1]. *)
Definition reshape_column (amp : list Sc) (dim : Z) : result Mx :=
  if negb (Z.of_nat (length amp) =? dim * 1)%Z
  then Raise (ValueError "Invalid reshape parameters")
  else Ok (tabulate (Z.to_nat dim) 1 (fun i j => nth (i * 1 + j) amp (zero A))).

(** The loop [for coeff, idx in terms: amp[idx] = coeff] of [from_tuples]. *)
Fixpoint fill (terms : list (Sc * Z)) (amp : list Sc) : result (list Sc) :=
  match terms with
  | [] => Ok amp
  | (coeff, idx) :: rest =>
      amp' <- py_setitem amp idx coeff ;;
      fill rest amp'
  end.

(** [PureState.from_tuples]; [dim] is [None] or an integer, and [[0]*dim]
    is the empty list for a negative [dim]. *)
Definition from_tuples (terms : list (Sc * Z)) (dim : option Z)
  : result PureState :=
  dim <- match dim with
         | None => top <- py_max (map snd terms) ;; Ok (top + 1)%Z
         | Some d => Ok d
         end ;;
  amp <- fill terms (repeat (zero A) (Z.to_nat dim)) ;;
  amplitudes <- reshape_column amp dim ;;
  PureState_init amplitudes.

(** [PureState.apply_gate] *)
Definition apply_gate (psi : PureState) (gate : Mx) : result PureState :=
  if negb (Nat.eqb (rows gate) (rows (vec psi))
           && Nat.eqb (cols gate) (rows (vec psi)))
  then Raise (ValueError "Gate matrix must match state dimension.")
  else
    prod <- mmul A gate (vec psi) ;;
    PureState_init prod.

(** [PureState.inner]: [simplify(self.vec.conjugate().T * other.vec)],
    a 1 x 1 matrix. *)
Definition inner (psi phi : PureState) : result Mx :=
  prod <- mmul A (dagger A (vec psi)) (vec phi) ;;
  Ok (msimplify A prod).

(** *** [class MixedState] *)

Definition Ensemble : Type := list (Sc * PureState).

Record MixedState : Type := mkMixedState { ensemble : Ensemble }.

(** [sum(p for p, _ in ensemble)]: Python's [sum] starts from 0. *)
Definition total (ens : Ensemble) : Sc :=
  fold_left (add A) (map fst ens) (zero A).

(** [simplify(total - 1)] *)
Definition residual (ens : Ensemble) : Sc :=
  simplify A (sub A (total ens) (one A)).

(** [MixedState.__init__] *)
Definition MixedState_init (ens : Ensemble) : result MixedState :=
  if ne0 A (residual ens)
  then Raise (ValueError "Probabilities must sum to 1.")
  else Ok (mkMixedState ens).

(** [PureState.to_mixed] *)
Definition to_mixed (psi : PureState) (prob : Sc) : result MixedState :=
  MixedState_init [(prob, psi)].

(** The loop of [density_matrix]:
    [for p, psi in ensemble: rho += p * (psi.vec * psi.vec.conjugate().T)] *)
Fixpoint accumulate (ens : Ensemble) (rho : Mx) : result Mx :=
  match ens with
  | [] => Ok rho
  | (p, psi) :: rest =>
      outer <- mmul A (vec psi) (dagger A (vec psi)) ;;
      rho' <- madd A rho (mscale A p outer) ;;
      accumulate rest rho'
  end.

(** [MixedState.density_matrix]; [self.ensemble[0]] raises [IndexError]
    on an empty list. *)
Definition density_matrix (m : MixedState) : result Mx :=
  match ensemble m with
  | [] => Raise IndexError
  | (_, psi0) :: _ =>
      rho <- accumulate (ensemble m) (mzeros A (rows (vec psi0))) ;;
      Ok (msimplify A rho)
  end.

(** [probs = [simplify((proj * rho).trace()) for proj in projectors]] *)
Fixpoint probabilities (rho : Mx) (projectors : list Mx) : result (list Sc) :=
  match projectors with
  | [] => Ok []
  | proj :: rest =>
      prod <- mmul A proj rho ;;
      tr <- mtrace A prod ;;
      ps <- probabilities rho rest ;;
      Ok (simplify A tr :: ps)
  end.

(** The objects the reconstruction loop of [measure] handles: Python is
    dynamically typed, and what [zip(evals, evecs)] yields is decided by
    what [diagonalize] returned, not by the names of the variables. *)
Inductive PyObj : Type :=
| PyScalar (s : Sc)
| PyMatrix (X : Mx).

(** [o.col_insert(pos, Y)]: a method of matrices; a SymPy scalar has no
    such attribute. *)
Definition col_insert (o : PyObj) (pos : nat) (Y : Mx) : result Mx :=
  match o with
  | PyScalar _ => Raise (AttributeError "col_insert")
  | PyMatrix X => matrix_col_insert A X pos Y
  end.

(** [Matrix([])]: the 0 x 0 matrix. *)
Definition empty_matrix : Mx := mkMatrix 0 0 [].

(** The loop [for ev, evec in zip(evals, evecs): ...] of [measure], over
    the pairs the [zip] yields. *)
Fixpoint reconstruct (pairs : list (Sc * Sc)) (new_ensemble : Ensemble)
  : result Ensemble :=
  match pairs with
  | [] => Ok new_ensemble
  | (ev, evec) :: rest =>
      if ne0 A ev then
        v <- col_insert (PyScalar evec) 0 empty_matrix ;;
        psi <- PureState_init v ;;
        reconstruct rest (new_ensemble ++ [(ev, psi)])
      else reconstruct rest new_ensemble
  end.

(** The body of [if p != 0:] in [measure], for the index [i]. *)
Definition collapse (rho : Mx) (projectors : list Mx) (i : nat)
  : result (nat * MixedState) :=
  match nth_error projectors i with
  | None => Raise IndexError
  | Some proj =>
      left <- mmul A proj rho ;;
      prod <- mmul A left proj ;;
      let rho_post := msimplify A prod in
      tr <- mtrace A rho_post ;;
      let rho_post := mdiv A rho_post (simplify A tr) in
      match diagonalize A rho_post with
      | None => Raise MatrixError
      | Some (evals, evecs) =>
          new_ensemble <-
            reconstruct (combine (iter_matrix evals) (iter_matrix evecs)) [] ;;
          post <- MixedState_init new_ensemble ;;
          Ok (i, post)
      end
  end.

(** [for i, p in enumerate(probs): if p != 0: ...] and the [raise] after
    the loop; [i] is the index of the head of [probs]. *)
Fixpoint select (rho : Mx) (projectors : list Mx) (probs : list Sc) (i : nat)
  : result (nat * MixedState) :=
  match probs with
  | [] => Raise (RuntimeError "All outcome probabilities are zero.")
  | p :: rest =>
      if ne0 A p then collapse rho projectors i
      else select rho projectors rest (S i)
  end.

(** The first index, counting the head of [probs] as [i], whose
    probability is not 0: the outcome [measure] selects. *)
Fixpoint first_nonzero (probs : list Sc) (i : nat) : option nat :=
  match probs with
  | [] => None
  | p :: rest => if ne0 A p then Some i else first_nonzero rest (S i)
  end.

(** [MixedState.measure] *)
Definition measure (m : MixedState) (projectors : list Mx)
  : result (nat * MixedState) :=
  rho <- density_matrix m ;;
  probs <- probabilities rho projectors ;;
  select rho projectors probs 0.
End States.
Arguments vec {A} p.
Arguments ensemble {A} m.
Arguments mkPureState {A} vec.
Arguments mkMixedState {A} ensemble.

(** ** Partial trace *)

Section PartialTrace.
Variable A : Provider.
Local Abbreviation Sc := (Scalar A).
Local Abbreviation Mx := (Matrix (Scalar A)).

(** Modelled from the spec: "the state's dimension [d]" of section 4.4,
    read off the first ket as [density_matrix] reads it. *)
Definition dimension (m : MixedState A) : nat :=
  match ensemble m with
  | [] => 0
  | (_, psi0) :: _ => rows (vec psi0)
  end.

(** Modelled from the spec: the "mixed-radix decomposition of the flat
    basis index" [n] for the subsystem dimensions [dims] (section 9), most
    significant subsystem first, and what is left of [n] above them. *)
Fixpoint digits (dims : list nat) (n : nat) : list nat * nat :=
  match dims with
  | [] => ([], n)
  | d :: rest =>
      let (ds, q) := digits rest n in
      (Nat.modulo q d :: ds, Nat.div q d)
  end.

(** Modelled from the spec: the coordinates of a multi-index that belong to
    a set of subsystems -- the elements of [l] whose position, counted from
    [j], satisfies [flag]. *)
Fixpoint select_by (flag : nat -> bool) (j : nat) (l : list nat) : list nat :=
  match l with
  | [] => []
  | x :: rest =>
      if flag j then x :: select_by flag (S j) rest
      else select_by flag (S j) rest
  end.

(** Modelled from the spec: subsystem [j] is named in [keep]. *)
Definition kept (keep : list nat) (j : nat) : bool := existsb (Nat.eqb j) keep.

(** Modelled from the spec: the flat index of the digits [ds] in the
    radices [dims]. *)
Definition encode (dims ds : list nat) : nat :=
  fold_left (fun acc dx => acc * fst dx + snd dx) (combine dims ds) 0.

(** Modelled from the spec: the product of the subsystem dimensions. *)
Definition product (dims : list nat) : nat := fold_right Nat.mul 1 dims.

(** Modelled from the spec: the dimensions of the kept subsystems. *)
Definition kept_dims (dims keep : list nat) : list nat :=
  select_by (kept keep) 0 dims.

(** Modelled from the spec: the index, in the reduced space, of the kept
    coordinates of [n]. *)
Definition kept_index (dims keep : list nat) (n : nat) : nat :=
  encode (kept_dims dims keep) (select_by (kept keep) 0 (fst (digits dims n))).

(** Modelled from the spec: the traced-out coordinates of [n]. *)
Definition traced_coords (dims keep : list nat) (n : nat) : list nat :=
  select_by (fun j => negb (kept keep j)) 0 (fst (digits dims n)).

(** Modelled from the spec: "the traced coordinates match between row and
    column index". *)
Definition same_coords (l1 l2 : list nat) : bool :=
  Nat.eqb (length l1) (length l2)
  && forallb (fun xy => Nat.eqb (fst xy) (snd xy)) (combine l1 l2).

(** Modelled from the spec: [utils.partial_trace_ensemble] is imported by
    [partial_trace] and missing from the sources.  This is the contraction
    of section 4.4 for one operator [rho] on the composite space: the entry
    at [(a, b)] of the reduced operator sums the entries of [rho] whose row
    and column have kept coordinates [a] and [b] and equal traced
    coordinates. *)
Definition contract (dims keep : list nat) (rho : Mx) : Mx :=
  let dk := product (kept_dims dims keep) in
  tabulate dk dk (fun a b =>
    sum_n A (rows rho) (fun r =>
      sum_n A (cols rho) (fun c =>
        if Nat.eqb (kept_index dims keep r) a
           && Nat.eqb (kept_index dims keep c) b
           && same_coords (traced_coords dims keep r) (traced_coords dims keep c)
        then ent A rho r c
        else zero A))).

(** Modelled from the spec: the reduced operator of an ensemble, "performed
    per ensemble member, then re-combined" (section 4.4): the weighted
    contractions of the members' projectors, summed. *)
Fixpoint reduce_members (dims keep : list nat) (ens : Ensemble A) (acc : Mx)
  : result Mx :=
  match ens with
  | [] => Ok acc
  | (p, psi) :: rest =>
      outer <- mmul A (vec psi) (dagger A (vec psi)) ;;
      acc' <- madd A acc (mscale A p (contract dims keep outer)) ;;
      reduce_members dims keep rest acc'
  end.

(** Modelled from the spec: the eigenvalue/eigenvector pairs of a
    diagonalization [(P, D)], "eigenvectors as columns of a matrix ...
    paired consistently with their eigenvalues" (section 6). *)
Definition eigenpairs (P D : Mx) : list (Sc * Mx) :=
  map (fun j => (ent A D j j, column_of (zero A) P j)) (seq 0 (cols P)).

(** Modelled from the spec: ensemble reconstruction, step 5 of section 4.3:
    one entry [(eigenvalue, PureState(eigenvector))] per non-zero
    eigenvalue, the zero eigenvalues dropped. *)
Fixpoint spectral_ensemble (pairs : list (Sc * Mx)) : result (Ensemble A) :=
  match pairs with
  | [] => Ok []
  | (ev, v) :: rest =>
      if ne0 A ev then
        psi <- PureState_init A v ;;
        tl <- spectral_ensemble rest ;;
        Ok ((ev, psi) :: tl)
      else spectral_ensemble rest
  end.

(** Modelled from the spec: [keep] "contains an out-of-range index". *)
Definition out_of_range (dims keep : list nat) : bool :=
  existsb (fun k => Nat.leb (length dims) k) keep.

(** Modelled from the spec: [keep] "contains an out-of-range index or is
    empty". *)
Definition invalid_keep (subsys_dims keep : list nat) : Prop :=
  keep = [] \/ exists k, In k keep /\ length subsys_dims <= k.

(** Modelled from the spec: [utils.partial_trace_ensemble], missing from the
    sources, after section 4.4: the two error conditions in the order the
    spec lists them, the contraction, and the re-expression of the reduced
    operator as an ensemble by eigendecomposition. *)
Definition partial_trace_ensemble (ens : Ensemble A) (subsys_dims keep : list nat)
  : result (Ensemble A) :=
  if negb (Nat.eqb (product subsys_dims) (dimension (mkMixedState ens)))
  then Raise DimensionMismatchError
  else if match keep with [] => true | _ => out_of_range subsys_dims keep end
  then Raise InvalidSubsystemError
  else
    let dk := product (kept_dims subsys_dims keep) in
    reduced <- reduce_members subsys_dims keep ens (mzeros A dk) ;;
    match diagonalize A reduced with
    | None => Raise MatrixError
    | Some (P, D) => spectral_ensemble (eigenpairs P D)
    end.

(** [MixedState.partial_trace] *)
Definition partial_trace (m : MixedState A) (subsys_dims keep : list nat)
  : result (MixedState A) :=
  new_ensemble <- partial_trace_ensemble (ensemble m) subsys_dims keep ;;
  MixedState_init A new_ensemble.
End PartialTrace.

(** ** Exact engines *)

(** An engine is exact when its scalars are the elements of a field with a
    conjugation, each expression standing for its value: [simplify] keeps
    the value and [!= 0] decides it.  This is the spec's "Equality/zero-tests
    must be exact". *)
Record Lawful (A : Provider) : Prop := {
  law_field :
    field_theory (zero A) (one A) (add A) (mul A) (sub A)
      (fun x => sub A (zero A) x) (div A) (fun x => div A (one A) x) eq;
  law_conj_add : forall x y,
    conjugate A (add A x y) = add A (conjugate A x) (conjugate A y);
  law_conj_mul : forall x y,
    conjugate A (mul A x y) = mul A (conjugate A x) (conjugate A y);
  law_conj_one : conjugate A (one A) = one A;
  law_conj_invol : forall x, conjugate A (conjugate A x) = x;
  law_simplify : forall x, simplify A x = x;
  law_ne0 : forall x, ne0 A x = false <-> x = zero A
}.
Existing Class Lawful.

(** [diagonalize] on a square matrix [X] returns [(P, D)] of the shape of
    [X] with [X * P = P * D], [D] diagonal and [P] invertible. *)
Definition is_diagonal (A : Provider) (D : Matrix (Scalar A)) : Prop :=
  forall i j, i <> j -> ent A D i j = zero A.

Record Diagonalizes (A : Provider) : Prop := {
  diag_shape : forall X P D,
    wf X -> rows X = cols X -> diagonalize A X = Some (P, D) ->
    wf P /\ wf D /\ rows P = rows X /\ cols P = rows X
    /\ rows D = rows X /\ cols D = rows X;
  diag_eigen : forall X P D,
    wf X -> rows X = cols X -> diagonalize A X = Some (P, D) ->
    mmul A X P = mmul A P D /\ is_diagonal A D;
  diag_invertible : forall X P D,
    wf X -> rows X = cols X -> diagonalize A X = Some (P, D) ->
    exists Q, wf Q /\ rows Q = rows X /\ cols Q = rows X
              /\ mmul A Q P = Ok (identity A (rows X))
}.

(** The eigenvectors returned are orthonormal: [P] is unitary.  The spec's
    ensemble is one "whose mixture equals a given density matrix", which a
    spectral decomposition gives with orthonormal eigenvectors. *)
Definition Orthonormal (A : Provider) : Prop :=
  forall X P D,
    wf X -> rows X = cols X -> diagonalize A X = Some (P, D) ->
    mmul A (dagger A P) P = Ok (identity A (rows X))
    /\ mmul A P (dagger A P) = Ok (identity A (rows X)).

(** ** An exact engine: the Gaussian rationals *)

(** Complex numbers with rational real and imaginary parts, in canonical
    form: SymPy's exact numbers [a + b*I]. *)
Record Qi : Type := mkQi { re : Qc; im : Qc }.

Definition Qc_eqb (x y : Qc) : bool := Qeq_bool x y.

Definition Qi_of_Q (q : Q) : Qi := mkQi (Q2Qc q) (Q2Qc 0).
Definition Qi_zero : Qi := Qi_of_Q 0.
Definition Qi_one : Qi := Qi_of_Q 1.
Definition Qi_I : Qi := mkQi (Q2Qc 0) (Q2Qc 1).

Definition Qi_add (x y : Qi) : Qi :=
  mkQi (re x + re y)%Qc (im x + im y)%Qc.
Definition Qi_sub (x y : Qi) : Qi :=
  mkQi (re x - re y)%Qc (im x - im y)%Qc.
Definition Qi_mul (x y : Qi) : Qi :=
  mkQi (re x * re y - im x * im y)%Qc (re x * im y + im x * re y)%Qc.
Definition Qi_conj (x : Qi) : Qi := mkQi (re x) (- im x)%Qc.
Definition Qi_norm2 (x : Qi) : Qc := (re x * re x + im x * im x)%Qc.
Definition Qi_inv (x : Qi) : Qi :=
  mkQi (re x / Qi_norm2 x)%Qc (- im x / Qi_norm2 x)%Qc.
Definition Qi_div (x y : Qi) : Qi := Qi_mul x (Qi_inv y).
Definition Qi_ne0 (x : Qi) : bool :=
  negb (Qc_eqb (re x) (Q2Qc 0) && Qc_eqb (im x) (Q2Qc 0)).

(** Is [X] square with zero entries off the diagonal? *)
Definition Qi_diagonal (X : Matrix Qi) : bool :=
  Nat.eqb (rows X) (cols X)
  && forallb (fun i =>
       forallb (fun j =>
         Nat.eqb i j || negb (Qi_ne0 (entry Qi_zero X i j)))
         (seq 0 (cols X)))
       (seq 0 (rows X)).

(** A diagonalization for the matrices that are diagonal already, with the
    standard basis as eigenvectors; this engine gives up on the others. *)
Definition Qi_diagonalize (X : Matrix Qi) : option (Matrix Qi * Matrix Qi) :=
  if Qi_diagonal X
  then Some (tabulate (rows X) (rows X)
               (fun i j => if Nat.eqb i j then Qi_one else Qi_zero), X)
  else None.

Definition QiEngine : Provider := {|
  Scalar := Qi;
  zero := Qi_zero;
  one := Qi_one;
  add := Qi_add;
  sub := Qi_sub;
  mul := Qi_mul;
  div := Qi_div;
  conjugate := Qi_conj;
  simplify := fun x => x;
  ne0 := Qi_ne0;
  diagonalize := Qi_diagonalize
|}.

(** ** Python floats *)

(** A probability written [0.5] in Python is a binary64 float.  [sum]
    starts from the integer [0] and adds the floats in IEEE arithmetic,
    [total - 1] subtracts in it, and [simplify] hands the float residual
    back as a SymPy [Float] of the same value. *)
Section PythonFloats.
Import PrimFloat.

Definition float_0 : float := 0%float.
Definition float_1 : float := 1%float.

(** The literals [0.5] and [0.4]; the second is the binary64 number nearest
    to four tenths. *)
Definition float_0_5 : float := 0x1p-1%float.
Definition float_0_4 : float := 0x1.999999999999ap-2%float.
End PythonFloats.

(** [x != 0] for a [Float] residual [x] depends on the SymPy installed,
    which the repository does not pin.  From SymPy 1.13 on, [==] between a
    [Float] and the integer [0] is structural and never holds, so [!=]
    holds of every [Float], [Float(0.0)] included; before 1.13 the two are
    compared by value.  [structural] says which comparison the engine
    makes. *)
Definition Float_ne0 (structural : bool) (x : PrimFloat.float) : bool :=
  structural || negb (PrimFloat.eqb x float_0).

(** The engine on floats.  The constructor of [MixedState] uses its [add],
    [sub], [simplify] and [!= 0] only.  Products and quotients are the
    binary64 ones, which SymPy's 53-bit [Float] agrees with while results
    stay finite and normal; a float is its own conjugate; no
    diagonalization is modelled for matrices of floats. *)
Definition FloatEngine (structural : bool) : Provider := {|
  Scalar := PrimFloat.float;
  zero := float_0;
  one := float_1;
  add := PrimFloat.add;
  sub := PrimFloat.sub;
  mul := PrimFloat.mul;
  div := PrimFloat.div;
  conjugate := fun x => x;
  simplify := fun x => x;
  ne0 := Float_ne0 structural;
  diagonalize := fun _ => None
|}.

(** ** A symbolic engine *)

(** Expressions with free symbols.  The operations fold numbers as SymPy's
    do on construction and otherwise build the expression; [simplify] has
    nothing to add, and [!= 0] holds of everything but the number 0. *)
Inductive Expr : Type :=
| Num (q : Qi)
| Sym (name : string)
| Add (a b : Expr)
| Mul (a b : Expr)
| Div (a b : Expr)
| Conj (a : Expr).

Definition is_num (q : Qi) (e : Expr) : bool :=
  match e with
  | Num x => negb (Qi_ne0 (Qi_sub x q))
  | _ => false
  end.

Definition Expr_add (a b : Expr) : Expr :=
  match a, b with
  | Num x, Num y => Num (Qi_add x y)
  | _, _ =>
      if is_num Qi_zero a then b
      else if is_num Qi_zero b then a
      else Add a b
  end.

Definition Expr_mul (a b : Expr) : Expr :=
  match a, b with
  | Num x, Num y => Num (Qi_mul x y)
  | _, _ =>
      if is_num Qi_zero a || is_num Qi_zero b then Num Qi_zero
      else if is_num Qi_one a then b
      else if is_num Qi_one b then a
      else Mul a b
  end.

Definition Expr_sub (a b : Expr) : Expr :=
  Expr_add a (Expr_mul (Num (Qi_sub Qi_zero Qi_one)) b).

Definition Expr_div (a b : Expr) : Expr :=
  match a, b with
  | Num x, Num y => Num (Qi_div x y)
  | _, _ => if is_num Qi_one b then a else Div a b
  end.

Definition Expr_conj (a : Expr) : Expr :=
  match a with
  | Num x => Num (Qi_conj x)
  | _ => Conj a
  end.

Definition SymEngine : Provider := {|
  Scalar := Expr;
  zero := Num Qi_zero;
  one := Num Qi_one;
  add := Expr_add;
  sub := Expr_sub;
  mul := Expr_mul;
  div := Expr_div;
  conjugate := Expr_conj;
  simplify := fun e => e;
  ne0 := fun e => negb (is_num Qi_zero e);
  diagonalize := fun _ => None
|}.

(** The value of an expression when its symbols take the values [env]. *)
Fixpoint eval (env : string -> Qi) (e : Expr) : Qi :=
  match e with
  | Num q => q
  | Sym name => env name
  | Add a b => Qi_add (eval env a) (eval env b)
  | Mul a b => Qi_mul (eval env a) (eval env b)
  | Div a b => Qi_div (eval env a) (eval env b)
  | Conj a => Qi_conj (eval env a)
  end.

(** An expression is provably non-zero when no values of its symbols make
    it zero, and a definite value when it is a number. *)
Definition provably_nonzero (e : Expr) : Prop :=
  forall env, eval env e <> Qi_zero.

Definition definite (e : Expr) : Prop := exists q, e = Num q.

(** ** States and projectors of the examples *)

Section Examples.
Variable A : Provider.

(** [Matrix([.., 1, ..])]: the amplitudes of the basis state [k] of
    dimension [n]. *)
Definition basis_amplitudes (n k : nat) : Matrix (Scalar A) :=
  tabulate n 1 (fun i _ => if Nat.eqb i k then one A else zero A).

(** The projector onto the basis state [k] of dimension [n]. *)
Definition basis_projector (n k : nat) : Matrix (Scalar A) :=
  tabulate n n (fun i j => if Nat.eqb i k && Nat.eqb j k then one A else zero A).

(** [PureState(amplitudes).to_mixed()]: [prob] defaults to 1. *)
Definition pure_as_mixed (amplitudes : Matrix (Scalar A)) : result (MixedState A) :=
  psi <- PureState_init A amplitudes ;;
  to_mixed A psi (one A).

(** [PureState(Matrix([r, 0, 0, r]))]: the state [r (|00> + |11>)], the
    Bell state when [r] is [1/sqrt(2)]. *)
Definition bell_amplitudes (r : Scalar A) : Matrix (Scalar A) :=
  column [r; zero A; zero A; r].

Definition half : Scalar A := div A (one A) (add A (one A) (one A)).

(** [I/2] on one qubit *)
Definition maximally_mixed : Matrix (Scalar A) :=
  tabulate 2 2 (fun i j => if Nat.eqb i j then half else zero A).
End Examples.

(** *** Inputs over the Gaussian rationals *)

(** [PureState(Matrix([1, 0]))] and [PureState(Matrix([0, 1]))] *)
Definition qubit (k : nat) : PureState QiEngine :=
  mkPureState (basis_amplitudes QiEngine 2 k).

(** [[(1/2, |0>), (1/2, |1>)]] *)
Definition mixed_qubit : Ensemble QiEngine :=
  [(Qi_of_Q (1 # 2), qubit 0); (Qi_of_Q (1 # 2), qubit 1)].

(** [Matrix([2, 0])]: the amplitudes of [2|0>], of squared norm 4. *)
Definition long_amplitudes : Matrix Qi := column [Qi_of_Q 2; Qi_zero].

(** [PureState(Matrix([1, 0])).to_mixed()] and
    [PureState(Matrix([2, 0])).to_mixed()], as constructed. *)
Definition zero_state : MixedState QiEngine :=
  @mkMixedState QiEngine [(Qi_one, qubit 0)].
Definition long_state : MixedState QiEngine :=
  @mkMixedState QiEngine [(Qi_one, @mkPureState QiEngine long_amplitudes)].

(** [(1 + I)/2], of modulus [1/sqrt(2)]: the Bell amplitude up to a phase,
    [sqrt(2)] itself not being a Gaussian rational. *)
Definition bell_amplitude : Qi := mkQi (Q2Qc (1 # 2)) (Q2Qc (1 # 2)).

(** [[(1, 0), (I, 1)]]: the terms of [|0> + I|1>]. *)
Definition plus_i_terms : list (Qi * Z) := [(Qi_one, 0%Z); (Qi_I, 1%Z)].

(** [PureState(Matrix([1, 0, 0]))]: a state of dimension 3. *)
Definition qutrit : PureState QiEngine :=
  mkPureState (basis_amplitudes QiEngine 3 0).

(** The projectors [|0><0|] and [|1><1|] of one qubit. *)
Definition computational_basis : list (Matrix Qi) :=
  [basis_projector QiEngine 2 0; basis_projector QiEngine 2 1].

(** ** Well-formed ensembles *)

Section Validity.
Variable A : Provider.

(** A ket of dimension [d]: a well-formed column of [d] amplitudes. *)
Definition is_ket (d : nat) (psi : PureState A) : Prop :=
  wf (vec psi) /\ rows (vec psi) = d /\ cols (vec psi) = 1.

(** The states of an ensemble share the dimension [d]. *)
Definition kets (d : nat) (ens : Ensemble A) : Prop :=
  Forall (fun entry => is_ket d (snd entry)) ens.

(** The inner product of [psi] with itself simplifies to 1. *)
Definition normalized (psi : PureState A) : Prop :=
  inner A psi psi = Ok (column [one A]).

(** Does the index [idx] of a list of length [len] denote position [k]? *)
Definition denotes (len : nat) (idx : Z) (k : nat) : bool :=
  match py_index len idx with
  | Some k' => Nat.eqb k' k
  | None => false
  end.

(** The coefficient of the last term of [terms] whose index denotes
    position [k] of a list of length [len], and [init] when there is none. *)
Definition last_coeff_from (len : nat) (terms : list (Scalar A * Z)) (k : nat)
  (init : Scalar A) : Scalar A :=
  fold_left (fun acc t => if denotes len (snd t) k then fst t else acc)
    terms init.

Definition last_coeff (len : nat) (terms : list (Scalar A * Z)) (k : nat)
  : Scalar A :=
  last_coeff_from len terms k (zero A).

(** The entry at [(i, k)] of the sum of a list of projectors. *)
Definition projector_sum (projectors : list (Matrix (Scalar A))) (i k : nat)
  : Scalar A :=
  fold_right (fun proj acc => add A (ent A proj i k) acc) (zero A) projectors.

(** The projectors sum to the identity of dimension [d]. *)
Definition complete (d : nat) (projectors : list (Matrix (Scalar A))) : Prop :=
  forall i k, i < d -> k < d ->
    projector_sum projectors i k = if Nat.eqb i k then one A else zero A.

(** A probability is real: it is its own conjugate. *)
Definition real (p : Scalar A) : Prop := conjugate A p = p.

(** The amplitude [k] of a ket. *)
Definition amp (psi : PureState A) (k : nat) : Scalar A := ent A (vec psi) k 0.

(** The entry at [(i, j)] of [sum p |psi><psi|] over an ensemble. *)
Fixpoint mixture (ens : Ensemble A) (i j : nat) : Scalar A :=
  match ens with
  | [] => zero A
  | (p, psi) :: rest =>
      add A (mul A p (mul A (amp psi i) (conjugate A (amp psi j))))
        (mixture rest i j)
  end.

(** [<psi|psi>] of a ket of dimension [d]. *)
Definition norm2 (d : nat) (psi : PureState A) : Scalar A :=
  sum_n A d (fun k => mul A (conjugate A (amp psi k)) (amp psi k)).
End Validity.

(** * Properties *)

(** ** Matrices as tables *)

Section MatrixFacts.
Context {T : Type}.
Implicit Types (M : Matrix T) (d : T).

Lemma nth_map_seq {U : Type} (g : nat -> U) (n i : nat) (u : U) :
  i < n -> nth i (map g (seq 0 n)) u = g i.
Proof.
  intros Hi.
  rewrite (nth_indep _ u (g 0)) by (rewrite length_map, length_seq; exact Hi).
  rewrite map_nth, seq_nth; [reflexivity | exact Hi].
Qed.

Lemma list_as_table {U : Type} (l : list U) (u : U) :
  l = map (fun i => nth i l u) (seq 0 (length l)).
Proof.
  apply (nth_ext _ _ u u).
  - now rewrite length_map, length_seq.
  - intros i Hi. now rewrite nth_map_seq.
Qed.

Lemma entry_tabulate d r c f i j :
  i < r -> j < c -> entry d (tabulate r c f) i j = f i j.
Proof.
  intros Hi Hj. unfold entry, tabulate. cbn [data].
  rewrite nth_map_seq by exact Hi.
  now rewrite nth_map_seq.
Qed.

Lemma wf_tabulate r c (f : nat -> nat -> T) : wf (tabulate r c f).
Proof.
  split; cbn.
  - now rewrite length_map, length_seq.
  - apply Forall_forall. intros row Hrow.
    apply in_map_iff in Hrow as (i & <- & _).
    now rewrite length_map, length_seq.
Qed.

Lemma tabulate_ext r c (f g : nat -> nat -> T) :
  (forall i j, i < r -> j < c -> f i j = g i j) ->
  tabulate r c f = tabulate r c g.
Proof.
  intros H. unfold tabulate. f_equal.
  apply map_ext_in. intros i Hi. apply in_seq in Hi.
  apply map_ext_in. intros j Hj. apply in_seq in Hj.
  apply H; lia.
Qed.

(** A well-formed matrix is the table of its entries. *)
Lemma wf_table d M : wf M -> M = tabulate (rows M) (cols M) (entry d M).
Proof.
  destruct M as [r c rws]. intros [Hlen Hrows]. cbn in *.
  unfold tabulate, entry. cbn. f_equal. subst r.
  rewrite (list_as_table rws []) at 1.
  apply map_ext_in. intros i Hi. apply in_seq in Hi.
  assert (Hc : length (nth i rws []) = c).
  { rewrite Forall_forall in Hrows. apply Hrows, nth_In. lia. }
  rewrite (list_as_table (nth i rws []) d) at 1.
  now rewrite Hc.
Qed.

Lemma mmap_table d (f : T -> T) M :
  wf M -> mmap f M = tabulate (rows M) (cols M) (fun i j => f (entry d M i j)).
Proof.
  intros Hwf. rewrite (wf_table d M Hwf) at 1.
  unfold mmap, tabulate. cbn. f_equal.
  rewrite map_map. apply map_ext. intros i. now rewrite map_map.
Qed.

Lemma wf_mmap (f : T -> T) M : wf M -> wf (mmap f M).
Proof.
  intros [Hlen Hrows]. split; cbn.
  - now rewrite length_map.
  - apply Forall_forall. intros row Hrow.
    apply in_map_iff in Hrow as (row' & <- & Hin).
    rewrite length_map. rewrite Forall_forall in Hrows. now apply Hrows.
Qed.

Lemma entry_mmap d (f : T -> T) M i j :
  wf M -> i < rows M -> j < cols M ->
  entry d (mmap f M) i j = f (entry d M i j).
Proof.
  intros Hwf Hi Hj. rewrite (mmap_table d f M Hwf).
  now rewrite entry_tabulate.
Qed.

Lemma wf_column (l : list T) : wf (column l).
Proof.
  split; cbn.
  - now rewrite length_map.
  - apply Forall_forall. intros row Hrow.
    now apply in_map_iff in Hrow as (x & <- & _).
Qed.

(** Two well-formed matrices of one shape with equal entries are equal. *)
Lemma matrix_ext d M N :
  wf M -> wf N -> rows M = rows N -> cols M = cols N ->
  (forall i j, i < rows M -> j < cols M -> entry d M i j = entry d N i j) ->
  M = N.
Proof.
  intros HM HN Hr Hc H.
  rewrite (wf_table d M HM), (wf_table d N HN), <- Hr, <- Hc.
  now apply tabulate_ext.
Qed.

(** A well-formed matrix with an entry has a non-empty iteration. *)
Lemma entry_in_iter d M i j :
  wf M -> i < rows M -> j < cols M -> In (entry d M i j) (iter_matrix M).
Proof.
  intros [Hlen Hrows] Hi Hj. unfold iter_matrix, entry.
  apply in_concat. exists (nth i (data M) []). split.
  - apply nth_In. lia.
  - apply nth_In. rewrite Forall_forall in Hrows.
    rewrite (Hrows (nth i (data M) [])); [exact Hj | apply nth_In; lia].
Qed.

Lemma length_iter M : wf M -> length (iter_matrix M) = rows M * cols M.
Proof.
  destruct M as [r c rws]. intros [Hlen Hrows]. cbn in *. subst r.
  unfold iter_matrix. cbn. induction rws as [|row rws IH]; cbn.
  - reflexivity.
  - rewrite length_app. inversion Hrows; subst. rewrite IH by assumption. lia.
Qed.
Lemma entry_outside d M i j :
  wf M -> rows M <= i \/ cols M <= j -> entry d M i j = d.
Proof.
  intros [Hlen Hrows] Hout. unfold entry.
  destruct (Nat.lt_ge_cases i (rows M)) as [Hi|Hi].
  - apply nth_overflow. rewrite Forall_forall in Hrows.
    rewrite (Hrows (nth i (data M) [])); [lia | apply nth_In; lia].
  - rewrite (nth_overflow (data M)) by lia. now destruct j.
Qed.
End MatrixFacts.

Arguments law_field {A} l.
Arguments law_conj_add {A} l x y.
Arguments law_conj_mul {A} l x y.
Arguments law_conj_one {A} l.
Arguments law_conj_invol {A} l x.
Arguments law_simplify {A} l x.
Arguments law_ne0 {A} l x.

(** ** Control flow: what holds over every engine *)

Section ControlFlow.
Variable A : Provider.
Local Abbreviation Sc := (Scalar A).
Local Abbreviation Mx := (Matrix (Scalar A)).

Lemma bind_ok {T U : Type} (c : result T) (k : T -> result U) (u : U) :
  bind c k = Ok u -> exists x, c = Ok x /\ k x = Ok u.
Proof. destruct c as [x|e]; cbn; [eauto | discriminate]. Qed.

Lemma bind_raise {T U : Type} (c : result T) (k : T -> result U) (e : PyError) :
  bind c k = Raise e -> c = Raise e \/ exists x, c = Ok x /\ k x = Raise e.
Proof. destruct c as [x|e']; cbn; [eauto | intros [= ->]; now left]. Qed.

Lemma mmul_raise (X Y : Mx) e : mmul A X Y = Raise e -> matrix_error e.
Proof.
  unfold mmul. destruct (Nat.eqb _ _); [discriminate | intros [= <-]; now left].
Qed.

Lemma madd_raise (X Y : Mx) e : madd A X Y = Raise e -> matrix_error e.
Proof.
  unfold madd. destruct (_ && _); [discriminate | intros [= <-]; now left].
Qed.

Lemma mtrace_raise (X : Mx) e : mtrace A X = Raise e -> matrix_error e.
Proof.
  unfold mtrace. destruct (Nat.eqb _ _); [discriminate | intros [= <-]; now right].
Qed.

Lemma accumulate_raise ens (rho : Mx) e :
  accumulate A ens rho = Raise e -> matrix_error e.
Proof.
  revert rho. induction ens as [|[p psi] rest IH]; intros rho; cbn.
  - discriminate.
  - intros H. apply bind_raise in H as [H | (outer & _ & H)].
    + now apply mmul_raise in H.
    + apply bind_raise in H as [H | (rho' & _ & H)].
      * now apply madd_raise in H.
      * now apply IH in H.
Qed.

Lemma density_matrix_raise m e :
  density_matrix A m = Raise e -> e = IndexError \/ matrix_error e.
Proof.
  unfold density_matrix. destruct (ensemble m) as [|[p psi0] rest].
  - intros [= <-]. now left.
  - intros H. apply bind_raise in H as [H | (rho & _ & H)].
    + right. now apply accumulate_raise in H.
    + discriminate.
Qed.

Lemma probabilities_raise (rho : Mx) projectors e :
  probabilities A rho projectors = Raise e -> matrix_error e.
Proof.
  induction projectors as [|proj rest IH]; cbn.
  - discriminate.
  - intros H. apply bind_raise in H as [H | (prod & _ & H)].
    + now apply mmul_raise in H.
    + apply bind_raise in H as [H | (tr & _ & H)].
      * now apply mtrace_raise in H.
      * apply bind_raise in H as [H | (ps & _ & H)]; [auto | discriminate].
Qed.

Lemma probabilities_length (rho : Mx) projectors probs :
  probabilities A rho projectors = Ok probs -> length probs = length projectors.
Proof.
  revert probs. induction projectors as [|proj rest IH]; cbn; intros probs H.
  - now injection H as <-.
  - apply bind_ok in H as (prod & _ & H). apply bind_ok in H as (tr & _ & H).
    apply bind_ok in H as (ps & Hps & H). injection H as <-.
    cbn. f_equal. now apply IH.
Qed.

(** *** The constructor of [MixedState] *)

Lemma MixedState_init_raise ens e :
  MixedState_init A ens = Raise e ->
  e = InvalidEnsembleError /\ ne0 A (residual A ens) = true.
Proof.
  unfold MixedState_init. destruct (ne0 A _); [intros [= <-]; now split | discriminate].
Qed.

Lemma MixedState_init_ok ens m :
  MixedState_init A ens = Ok m ->
  m = mkMixedState ens /\ ne0 A (residual A ens) = false.
Proof.
  unfold MixedState_init. destruct (ne0 A _); [discriminate | intros [= <-]; now split].
Qed.

Lemma MixedState_init_decides ens :
  (MixedState_init A ens = Raise InvalidEnsembleError
   <-> ne0 A (residual A ens) = true)
  /\ (MixedState_init A ens = Ok (mkMixedState ens)
      <-> ne0 A (residual A ens) = false).
Proof.
  unfold MixedState_init. destruct (ne0 A _); split; split;
    (reflexivity || discriminate).
Qed.

(** *** The reconstruction loop of [measure] *)

(** The loop raises [AttributeError] at the first pair whose first
    component is not 0, and returns its accumulator when there is none. *)
Lemma reconstruct_spec pairs (acc : Ensemble A) :
  reconstruct A pairs acc =
  if existsb (fun evp => ne0 A (fst evp)) pairs
  then Raise (AttributeError "col_insert")
  else Ok acc.
Proof.
  revert acc. induction pairs as [|[ev evec] rest IH]; intros acc; cbn.
  - reflexivity.
  - destruct (ne0 A ev); cbn; [reflexivity | apply IH].
Qed.

Lemma matrix_error_not_degenerate e : matrix_error e -> not_degenerate e.
Proof. intros [-> | ->]; discriminate. Qed.

Lemma collapse_raise (rho : Mx) projectors i e :
  collapse A rho projectors i = Raise e -> not_degenerate e.
Proof.
  unfold collapse. destruct (nth_error projectors i) as [proj|].
  2: { intros [= <-]. discriminate. }
  intros H. apply bind_raise in H as [H | (left & _ & H)].
  { apply mmul_raise in H. now apply matrix_error_not_degenerate. }
  apply bind_raise in H as [H | (prod & _ & H)].
  { apply mmul_raise in H. now apply matrix_error_not_degenerate. }
  apply bind_raise in H as [H | (tr & _ & H)].
  { apply mtrace_raise in H. now apply matrix_error_not_degenerate. }
  destruct (diagonalize A _) as [[evals evecs]|].
  2: { injection H as <-. discriminate. }
  rewrite reconstruct_spec in H.
  destruct (existsb _ _); cbn in H.
  { injection H as <-. discriminate. }
  apply bind_raise in H as [H | (post & _ & H)]; [|discriminate].
  apply MixedState_init_raise in H as [-> _]. discriminate.
Qed.

Lemma select_degenerate (rho : Mx) projectors probs i :
  select A rho projectors probs i = Raise DegenerateMeasurementError
  <-> forallb (fun p => negb (ne0 A p)) probs = true.
Proof.
  revert i. induction probs as [|p rest IH]; intros i; cbn.
  - split; reflexivity.
  - destruct (ne0 A p); cbn.
    + split; [|discriminate]. intros H. now apply collapse_raise in H.
    + apply IH.
Qed.

Lemma select_first_nonzero (rho : Mx) projectors probs i :
  select A rho projectors probs i =
  match first_nonzero A probs i with
  | Some k => collapse A rho projectors k
  | None => Raise DegenerateMeasurementError
  end.
Proof.
  revert i. induction probs as [|p rest IH]; intros i; cbn.
  - reflexivity.
  - destruct (ne0 A p); [reflexivity | apply IH].
Qed.

Lemma first_nonzero_spec probs i k :
  first_nonzero A probs i = Some k ->
  i <= k /\ k - i < length probs
  /\ (exists p, nth_error probs (k - i) = Some p /\ ne0 A p = true)
  /\ forall j p, j < k - i -> nth_error probs j = Some p -> ne0 A p = false.
Proof.
  revert i. induction probs as [|p rest IH]; intros i; cbn.
  - discriminate.
  - destruct (ne0 A p) eqn:Hp.
    + intros [= <-]. rewrite Nat.sub_diag.
      split; [lia|]. split; [lia|]. split.
      * exists p. now split.
      * intros j q Hj. lia.
    + intros H. apply IH in H as (Hle & Hlt & (q & Hq & Hq') & Hbefore).
      replace (k - i) with (S (k - S i)) by lia.
      split; [lia|]. split; [lia|]. split.
      * exists q. now split.
      * intros [|j] q' Hj; cbn.
        -- now intros [= <-].
        -- apply Hbefore. lia.
Qed.
End ControlFlow.

(** ** Exact engines: sums and conjugates *)

Section Exact.
Context {A : Provider} {L : Lawful A}.
Local Abbreviation Sc := (Scalar A).
Local Abbreviation Mx := (Matrix (Scalar A)).

Add Field engine_field : (law_field L).

Lemma ne0_true (x : Sc) : ne0 A x = true <-> x <> zero A.
Proof.
  pose proof (law_ne0 L x) as H. destruct (ne0 A x).
  - split; [|reflexivity]. intros _ Hx. apply H in Hx. discriminate.
  - split; [discriminate|]. intros Hx. exfalso. now apply Hx, H.
Qed.

Lemma ne0_zero : ne0 A (zero A) = false.
Proof. now apply (law_ne0 L). Qed.

Lemma one_neq_zero : one A <> zero A.
Proof. exact (F_1_neq_0 (law_field L)). Qed.

Lemma conj_zero : conjugate A (zero A) = zero A.
Proof.
  pose proof (law_conj_add L (zero A) (zero A)) as H.
  replace (add A (zero A) (zero A)) with (zero A) in H by ring.
  assert (E : sub A (conjugate A (zero A)) (conjugate A (zero A))
              = conjugate A (zero A)).
  { rewrite H at 1. ring. }
  rewrite <- E. ring.
Qed.

(** *** Sums *)

Lemma fold_add_acc (l : list Sc) (a : Sc) :
  fold_left (add A) l a = add A a (fold_left (add A) l (zero A)).
Proof.
  revert a. induction l as [|x l IH]; intros a; cbn.
  - ring.
  - rewrite (IH (add A a x)), (IH (add A (zero A) x)). ring.
Qed.

Lemma sum_n_S n (f : nat -> Sc) :
  sum_n A (S n) f = add A (sum_n A n f) (f n).
Proof.
  unfold sum_n. rewrite seq_S, map_app, fold_left_app. reflexivity.
Qed.

Lemma sum_n_ext n (f g : nat -> Sc) :
  (forall i, i < n -> f i = g i) -> sum_n A n f = sum_n A n g.
Proof.
  intros H. unfold sum_n. f_equal. apply map_ext_in.
  intros i Hi. apply in_seq in Hi. apply H. lia.
Qed.

Lemma sum_n_zero n : sum_n A n (fun _ => zero A) = zero A.
Proof.
  induction n as [|n IH]; [reflexivity|]. rewrite sum_n_S, IH. ring.
Qed.

Lemma sum_n_add n (f g : nat -> Sc) :
  sum_n A n (fun i => add A (f i) (g i)) = add A (sum_n A n f) (sum_n A n g).
Proof.
  induction n as [|n IH]; [cbn; ring|]. rewrite !sum_n_S, IH. ring.
Qed.

Lemma sum_n_scale n (c : Sc) (f : nat -> Sc) :
  sum_n A n (fun i => mul A c (f i)) = mul A c (sum_n A n f).
Proof.
  induction n as [|n IH]; [cbn; ring|]. rewrite !sum_n_S, IH. ring.
Qed.

Lemma sum_n_conj n (f : nat -> Sc) :
  conjugate A (sum_n A n f) = sum_n A n (fun i => conjugate A (f i)).
Proof.
  induction n as [|n IH]; [cbn; apply conj_zero|].
  rewrite !sum_n_S, (law_conj_add L), IH. reflexivity.
Qed.

(** A sum against the Kronecker delta picks one term. *)
Lemma sum_n_delta n j (f : nat -> Sc) :
  j < n ->
  sum_n A n (fun k => mul A (f k) (if Nat.eqb k j then one A else zero A)) = f j.
Proof.
  induction n as [|n IH]; [lia|]. intros Hj. rewrite sum_n_S.
  destruct (Nat.eqb_spec n j) as [->|Hne].
  - rewrite (sum_n_ext j _ (fun _ => zero A)).
    + rewrite sum_n_zero. ring.
    + intros i Hi. destruct (Nat.eqb_spec i j); [lia | ring].
  - rewrite IH by lia. ring.
Qed.

Lemma sum_n_delta_l n i (f : nat -> Sc) :
  i < n ->
  sum_n A n (fun k => mul A (if Nat.eqb i k then one A else zero A) (f k)) = f i.
Proof.
  intros Hi. rewrite <- (sum_n_delta n i f Hi). apply sum_n_ext.
  intros k _. rewrite (Nat.eqb_sym i k). ring.
Qed.

Lemma sum_n_all_zero n (f : nat -> Sc) :
  (forall i, i < n -> f i = zero A) -> sum_n A n f = zero A.
Proof.
  intros H. rewrite <- (sum_n_zero n). now apply sum_n_ext.
Qed.

(** *** Entries of the matrix operations *)

Lemma ent_tabulate r c (f : nat -> nat -> Sc) i j :
  i < r -> j < c -> ent A (tabulate r c f) i j = f i j.
Proof. apply entry_tabulate. Qed.

Lemma msimplify_id (X : Mx) : msimplify A X = X.
Proof.
  destruct X as [r c rws]. unfold msimplify, mmap. cbn. f_equal.
  rewrite <- (map_id rws) at 2. apply map_ext. intros row.
  rewrite <- (map_id row) at 2. apply map_ext. apply (law_simplify L).
Qed.

Lemma ent_mconj (X : Mx) i j :
  wf X -> i < rows X -> j < cols X ->
  ent A (mconj A X) i j = conjugate A (ent A X i j).
Proof. intros. now apply entry_mmap. Qed.

Lemma ent_dagger (X : Mx) i j :
  wf X -> i < cols X -> j < rows X ->
  ent A (dagger A X) i j = conjugate A (ent A X j i).
Proof.
  intros Hwf Hi Hj. unfold dagger, mT, transpose. cbn [mconj mmap rows cols].
  rewrite ent_tabulate by assumption. now apply ent_mconj.
Qed.

Lemma wf_dagger (X : Mx) : wf (dagger A X).
Proof. apply wf_tabulate. Qed.

Lemma sum_n_1 (f : nat -> Sc) : sum_n A 1 f = f 0.
Proof. cbn. ring. Qed.

(** [psi.vec * psi.vec.conjugate().T] for a ket. *)
Lemma outer_table d (psi : PureState A) :
  is_ket A d psi ->
  mmul A (vec psi) (dagger A (vec psi)) =
  Ok (tabulate d d (fun i j => mul A (amp A psi i) (conjugate A (amp A psi j)))).
Proof.
  intros (Hwf & Hr & Hc). unfold mmul.
  replace (rows (dagger A (vec psi))) with (cols (vec psi)) by reflexivity.
  rewrite Nat.eqb_refl.
  replace (cols (dagger A (vec psi))) with (rows (vec psi)) by reflexivity.
  rewrite Hr, Hc. f_equal. apply tabulate_ext. intros i j Hi Hj.
  rewrite sum_n_1. unfold amp.
  rewrite ent_dagger by (assumption || lia). reflexivity.
Qed.

(** The loop of [density_matrix] adds the mixture of the ensemble to the
    matrix it starts from. *)
Lemma accumulate_table d (ens : Ensemble A) (rho0 : Mx) :
  kets A d ens -> wf rho0 -> rows rho0 = d -> cols rho0 = d ->
  accumulate A ens rho0 =
  Ok (tabulate d d (fun i j => add A (ent A rho0 i j) (mixture A ens i j))).
Proof.
  intros Hk. revert rho0.
  induction Hk as [|[p psi] rest Hpsi Hrest IH]; intros rho0 Hwf Hr Hc.
  - cbn. f_equal. rewrite (wf_table (zero A) rho0 Hwf) at 1. rewrite Hr, Hc.
    apply tabulate_ext. intros i j _ _. unfold ent. ring.
  - cbn [accumulate snd] in *. rewrite (outer_table d psi Hpsi). cbn [bind].
    unfold madd. cbn [mscale mmap rows cols tabulate].
    rewrite Hr, Hc, !Nat.eqb_refl. cbn [andb bind].
    rewrite IH by (apply wf_tabulate || reflexivity).
    f_equal. apply tabulate_ext. intros i j Hi Hj.
    rewrite ent_tabulate by assumption.
    unfold mscale, ent. rewrite entry_mmap by (apply wf_tabulate || assumption).
    rewrite entry_tabulate by assumption.
    cbn [mixture]. ring.
Qed.

Lemma ent_mzeros n i j : ent A (mzeros A n) i j = zero A.
Proof.
  unfold mzeros, ent, entry, tabulate. cbn [data].
  destruct (Nat.lt_ge_cases i n) as [Hi|Hi].
  - rewrite nth_map_seq by assumption.
    destruct (Nat.lt_ge_cases j n) as [Hj|Hj].
    + now rewrite nth_map_seq.
    + apply nth_overflow. now rewrite length_map, length_seq.
  - rewrite (nth_overflow _ []) by (now rewrite length_map, length_seq).
    now destruct j.
Qed.

(** [density_matrix] of an ensemble of kets of dimension [d] is the table
    of its mixture. *)
Lemma density_matrix_table d (m : MixedState A) :
  ensemble m <> [] -> kets A d (ensemble m) ->
  density_matrix A m = Ok (tabulate d d (mixture A (ensemble m))).
Proof.
  intros Hne Hk. unfold density_matrix.
  destruct (ensemble m) as [|[p0 psi0] rest] eqn:E; [congruence|].
  assert (Hd : rows (vec psi0) = d).
  { inversion Hk as [|? ? (_ & H & _) _]. exact H. }
  rewrite Hd.
  rewrite (accumulate_table d) by
    (assumption || apply wf_tabulate || reflexivity).
  cbn [bind]. rewrite msimplify_id. f_equal.
  apply tabulate_ext. intros i j _ _. rewrite ent_mzeros. ring.
Qed.

(** *** The constructor over an exact engine *)

Lemma total_cons p (psi : PureState A) (rest : Ensemble A) :
  total A ((p, psi) :: rest) = add A p (total A rest).
Proof.
  unfold total. cbn [map fst fold_left]. rewrite fold_add_acc. ring.
Qed.

Lemma residual_exact (ens : Ensemble A) :
  residual A ens = sub A (total A ens) (one A).
Proof. apply (law_simplify L). Qed.

(** Over an exact engine the constructor accepts the ensembles whose
    probabilities sum to 1, and no others. *)
Lemma MixedState_init_exact (ens : Ensemble A) (m : MixedState A) :
  MixedState_init A ens = Ok m <-> m = mkMixedState ens /\ total A ens = one A.
Proof.
  split.
  - intros H. apply MixedState_init_ok in H as [-> H]. split; [reflexivity|].
    apply (law_ne0 L) in H. rewrite residual_exact in H.
    replace (total A ens) with (add A (sub A (total A ens) (one A)) (one A)) by ring.
    rewrite H. ring.
  - intros [-> H]. unfold MixedState_init.
    replace (ne0 A (residual A ens)) with false; [reflexivity|].
    symmetry. apply (law_ne0 L). rewrite residual_exact, H. ring.
Qed.

Lemma minus_one_nonzero : ne0 A (simplify A (sub A (zero A) (one A))) = true.
Proof.
  apply ne0_true. rewrite (law_simplify L). intros H.
  apply one_neq_zero.
  replace (one A) with (sub A (zero A) (sub A (zero A) (one A))) by ring.
  rewrite H. ring.
Qed.

Lemma constructed_nonempty (ens : Ensemble A) (m : MixedState A) :
  MixedState_init A ens = Ok m -> ensemble m <> [].
Proof.
  intros H. apply MixedState_init_ok in H as [-> H]. cbn.
  intros ->. unfold residual, total in H. cbn in H.
  rewrite minus_one_nonzero in H. discriminate.
Qed.

(** *** Hermiticity and trace of the mixture *)

Lemma mixture_conj (ens : Ensemble A) i j :
  Forall (fun e => real A (fst e)) ens ->
  conjugate A (mixture A ens j i) = mixture A ens i j.
Proof.
  induction 1 as [|[p psi] rest Hp _ IH]; cbn [mixture].
  - apply conj_zero.
  - cbn in Hp. unfold real in Hp.
    rewrite (law_conj_add L), !(law_conj_mul L), (law_conj_invol L), IH, Hp.
    ring.
Qed.

Lemma dagger_table d (f : nat -> nat -> Sc) :
  dagger A (tabulate d d f) = tabulate d d (fun i j => conjugate A (f j i)).
Proof.
  unfold dagger, mT, transpose.
  change (cols (mconj A (tabulate d d f))) with d.
  change (rows (mconj A (tabulate d d f))) with d.
  apply tabulate_ext. intros i j Hi Hj. unfold mconj.
  rewrite entry_mmap by (apply wf_tabulate || assumption).
  now rewrite entry_tabulate.
Qed.

Lemma mtrace_table d (f : nat -> nat -> Sc) :
  mtrace A (tabulate d d f) = Ok (sum_n A d (fun i => f i i)).
Proof.
  unfold mtrace. cbn [rows cols tabulate]. rewrite Nat.eqb_refl. f_equal.
  apply sum_n_ext. intros i Hi. now apply ent_tabulate.
Qed.

(** The probabilities weighted by the squared norms of their states. *)
Lemma trace_mixture d (ens : Ensemble A) :
  sum_n A d (fun i => mixture A ens i i) =
  fold_right (fun e acc => add A (mul A (fst e) (norm2 A d (snd e))) acc)
    (zero A) ens.
Proof.
  induction ens as [|[p psi] rest IH]; cbn [mixture fold_right fst snd].
  - apply sum_n_zero.
  - rewrite sum_n_add, sum_n_scale, IH. f_equal. f_equal.
    unfold norm2. apply sum_n_ext. intros k _. ring.
Qed.

Lemma normalized_norm2 d (psi : PureState A) :
  is_ket A d psi -> normalized A psi -> norm2 A d psi = one A.
Proof.
  intros (Hwf & Hr & Hc). unfold normalized, inner, mmul.
  replace (cols (dagger A (vec psi))) with (rows (vec psi)) by reflexivity.
  rewrite Nat.eqb_refl. cbn [bind]. rewrite msimplify_id.
  replace (rows (dagger A (vec psi))) with (cols (vec psi)) by reflexivity.
  rewrite Hr, Hc. cbn [tabulate seq map column]. intros [= H].
  rewrite <- H. unfold norm2. apply sum_n_ext. intros k Hk.
  rewrite ent_dagger by (assumption || lia). reflexivity.
Qed.

Lemma trace_normalized d (ens : Ensemble A) :
  kets A d ens -> Forall (fun e => normalized A (snd e)) ens ->
  sum_n A d (fun i => mixture A ens i i) = total A ens.
Proof.
  intros Hk Hn. rewrite trace_mixture.
  induction ens as [|[p psi] rest IH]; cbn [fold_right fst snd].
  - reflexivity.
  - inversion Hk as [|? ? Hpsi Hk']; inversion Hn as [|? ? Hnpsi Hn']; subst.
    cbn [snd] in *.
    rewrite total_cons, IH by assumption.
    rewrite (normalized_norm2 d psi) by assumption. ring.
Qed.
Lemma norm2_normalized d (psi : PureState A) :
  is_ket A d psi -> norm2 A d psi = one A -> normalized A psi.
Proof.
  intros (Hwf & Hr & Hc) Hn. unfold normalized, inner, mmul.
  replace (cols (dagger A (vec psi))) with (rows (vec psi)) by reflexivity.
  rewrite Nat.eqb_refl. cbn [bind]. rewrite msimplify_id.
  replace (rows (dagger A (vec psi))) with (cols (vec psi)) by reflexivity.
  rewrite Hr, Hc. rewrite <- Hn. unfold tabulate, column. cbn [seq map length].
  do 4 f_equal. unfold norm2. apply sum_n_ext. intros k Hk.
  rewrite ent_dagger by (assumption || lia). reflexivity.
Qed.

(** *** The degenerate measurement of the spec *)

(** [|0>] of dimension 2 is constructed, and measuring it against the
    single projector [|1><1|] finds no outcome. *)
Lemma zero_ket_against_one_projector :
  exists m, pure_as_mixed A (basis_amplitudes A 2 0) = Ok m
            /\ measure A m [basis_projector A 2 1]
               = Raise DegenerateMeasurementError.
Proof.
  unfold pure_as_mixed. cbn.
  unfold to_mixed, MixedState_init, residual. cbn.
  rewrite !(law_simplify L).
  replace (sub A (add A (zero A) (one A)) (one A)) with (zero A) by ring.
  rewrite ne0_zero. eexists. split; [reflexivity|].
  unfold measure, density_matrix. cbn.
  unfold sum_n, ent, entry. cbn.
  rewrite !(law_simplify L), ?(law_conj_one L), ?conj_zero.
  match goal with |- context [ne0 A ?t] => replace t with (zero A) by ring end.
  rewrite ne0_zero. reflexivity.
Qed.
(** *** The identity matrix *)

Lemma mmul_identity_r n (X : Mx) :
  wf X -> rows X = n -> cols X = n -> mmul A X (identity A n) = Ok X.
Proof.
  intros Hwf Hr Hc. unfold mmul.
  change (rows (identity A n)) with n. change (cols (identity A n)) with n.
  rewrite Hc, Hr, Nat.eqb_refl. f_equal.
  pose proof (wf_table (zero A) X Hwf) as E. rewrite Hr, Hc in E.
  etransitivity; [|symmetry; exact E].
  apply tabulate_ext. intros i j Hi Hj.
  rewrite <- (sum_n_delta n j (fun k => entry (zero A) X i k) Hj).
  apply sum_n_ext. intros k Hk. unfold identity.
  now rewrite ent_tabulate.
Qed.

Lemma mmul_identity_l n (X : Mx) :
  wf X -> rows X = n -> cols X = n -> mmul A (identity A n) X = Ok X.
Proof.
  intros Hwf Hr Hc. unfold mmul.
  change (rows (identity A n)) with n. change (cols (identity A n)) with n.
  rewrite Hc, Hr, Nat.eqb_refl. f_equal.
  pose proof (wf_table (zero A) X Hwf) as E. rewrite Hr, Hc in E.
  etransitivity; [|symmetry; exact E].
  apply tabulate_ext. intros i j Hi Hj.
  rewrite <- (sum_n_delta_l n i (fun k => entry (zero A) X k j) Hi).
  apply sum_n_ext. intros k Hk. unfold identity.
  now rewrite ent_tabulate.
Qed.

Lemma dagger_identity n : dagger A (identity A n) = identity A n.
Proof.
  unfold identity. rewrite dagger_table. apply tabulate_ext.
  intros i j _ _. rewrite (Nat.eqb_sym j i).
  destruct (Nat.eqb i j); [apply (law_conj_one L) | apply conj_zero].
Qed.

Lemma wf_identity n : wf (identity A n).
Proof. apply wf_tabulate. Qed.
(** *** Entries of products *)

Lemma mmul_entry (X Y Z : Mx) i j :
  mmul A X Y = Ok Z -> i < rows X -> j < cols Y ->
  ent A Z i j = sum_n A (cols X) (fun k => mul A (ent A X i k) (ent A Y k j)).
Proof.
  unfold mmul. destruct (Nat.eqb _ _); [|discriminate].
  intros [= <-] Hi Hj. now rewrite ent_tabulate.
Qed.

Lemma ent_identity n i j :
  i < n -> j < n ->
  ent A (identity A n) i j = if Nat.eqb i j then one A else zero A.
Proof. intros Hi Hj. unfold identity. now rewrite ent_tabulate. Qed.

(** *** The reconstruction loop on a genuine diagonalization *)

Lemma fst_combine {X Y : Type} (l1 : list X) (l2 : list Y) :
  length l1 <= length l2 -> map fst (combine l1 l2) = l1.
Proof.
  revert l2. induction l1 as [|x l1 IH]; intros [|y l2]; cbn; intros H;
    try reflexivity; try lia.
  f_equal. apply IH. lia.
Qed.

(** An invertible [P] has a non-zero entry, so the loop of [measure] over
    [zip(P, D)] raises [AttributeError] whenever [diagonalize] returned the
    eigenvectors of a matrix of dimension 1 or more. *)
Lemma reconstruct_invertible n (P D Q : Mx) :
  0 < n ->
  wf P -> rows P = n -> cols P = n ->
  wf D -> rows D = n -> cols D = n ->
  cols Q = n -> rows Q = n ->
  mmul A Q P = Ok (identity A n) ->
  reconstruct A (combine (iter_matrix P) (iter_matrix D)) []
  = Raise (AttributeError "col_insert").
Proof.
  intros Hn HwfP HrP HcP HwfD HrD HcD HcQ HrQ Hinv.
  rewrite reconstruct_spec.
  destruct (existsb _ _) eqn:Hex; [reflexivity|]. exfalso.
  assert (Hzero : forall x, In x (iter_matrix P) -> x = zero A).
  { intros x Hx. apply (law_ne0 L).
    rewrite <- (fst_combine (iter_matrix P) (iter_matrix D)) in Hx
      by (rewrite !length_iter by assumption; lia).
    apply in_map_iff in Hx as (pair & <- & Hin).
    destruct (ne0 A (fst pair)) eqn:Hp; [|reflexivity].
    assert (existsb (fun evp => ne0 A (fst evp))
              (combine (iter_matrix P) (iter_matrix D)) = true)
      by (apply existsb_exists; now exists pair).
    congruence. }
  pose proof (mmul_entry Q P (identity A n) 0 0 Hinv) as E.
  rewrite HrQ, HcQ, HcP in E. specialize (E Hn Hn).
  rewrite ent_identity in E by assumption. cbn [Nat.eqb] in E.
  apply one_neq_zero. rewrite E. apply sum_n_all_zero.
  intros k Hk. rewrite (Hzero (ent A P k 0)); [ring|].
  apply entry_in_iter; [assumption | lia | lia].
Qed.
End Exact.

(** ** The Gaussian rationals are an exact engine *)

Section GaussianRationals.
Local Open Scope Qc_scope.

Lemma Qc_eqb_eq (x y : Qc) : Qc_eqb x y = true <-> x = y.
Proof.
  unfold Qc_eqb. rewrite Qeq_bool_iff. split.
  - apply Qc_is_canon.
  - intros ->. reflexivity.
Qed.

Lemma Qc_squares_zero (c d : Qc) : c * c + d * d = 0 -> c = 0 /\ d = 0.
Proof.
  intros H.
  assert (HQ : (this c * this c + this d * this d == 0)%Q).
  { assert (E : (this (c * c + d * d) == this 0)%Q) by (rewrite H; reflexivity).
    unfold Qcplus, Qcmult, Q2Qc in E. cbn [this] in E.
    rewrite !Qred_correct in E. exact E. }
  split; apply Qc_is_canon; change (this 0) with 0%Q; nra.
Qed.

Lemma Qi_eq (x y : Qi) : re x = re y -> im x = im y -> x = y.
Proof. destruct x, y. cbn. now intros -> ->. Qed.

Lemma Qi_norm2_nonzero (x : Qi) : x <> Qi_zero -> Qi_norm2 x <> 0.
Proof.
  intros Hx Hn. apply Hx. apply Qc_squares_zero in Hn as [Hr Hi].
  now apply Qi_eq.
Qed.

Ltac qi_ring :=
  intros;
  repeat match goal with x : Qi |- _ => destruct x end;
  apply Qi_eq; cbn; ring.

Lemma Qi_ring :
  ring_theory Qi_zero Qi_one Qi_add Qi_mul Qi_sub
    (fun x => Qi_sub Qi_zero x) eq.
Proof. constructor; qi_ring. Qed.

Lemma Qi_field :
  field_theory Qi_zero Qi_one Qi_add Qi_mul Qi_sub
    (fun x => Qi_sub Qi_zero x) Qi_div (fun x => Qi_div Qi_one x) eq.
Proof.
  constructor.
  - exact Qi_ring.
  - intros H. apply (f_equal re) in H. discriminate H.
  - unfold Qi_div. qi_ring.
  - intros p Hp. pose proof (Qi_norm2_nonzero p Hp) as Hn.
    destruct p as [a b]. unfold Qi_div, Qi_inv, Qi_norm2 in *. cbn in *.
    apply Qi_eq; cbn; field; exact Hn.
Qed.

Lemma Qi_ne0_false (x : Qi) : Qi_ne0 x = false <-> x = Qi_zero.
Proof.
  unfold Qi_ne0. rewrite negb_false_iff, andb_true_iff, !Qc_eqb_eq.
  split.
  - intros [Hr Hi]. now apply Qi_eq.
  - intros ->. now split.
Qed.

Lemma QiEngine_lawful : Lawful QiEngine.
Proof.
  constructor; cbn.
  - exact Qi_field.
  - qi_ring.
  - qi_ring.
  - now apply Qi_eq.
  - qi_ring.
  - reflexivity.
  - exact Qi_ne0_false.
Qed.
End GaussianRationals.
#[export] Existing Instance QiEngine_lawful.

(** *** Its diagonalization *)

Section GaussianDiagonalization.

Lemma Qi_diagonalize_some (X P D : Matrix Qi) :
  Qi_diagonalize X = Some (P, D) ->
  Qi_diagonal X = true /\ P = identity QiEngine (rows X) /\ D = X.
Proof.
  unfold Qi_diagonalize. destruct (Qi_diagonal X); [|discriminate].
  intros [= <- <-]. repeat split.
Qed.

Lemma Qi_diagonal_spec (X : Matrix Qi) :
  wf X -> Qi_diagonal X = true -> is_diagonal QiEngine X.
Proof.
  intros Hwf H i j Hij. unfold Qi_diagonal in H.
  apply andb_true_iff in H as [_ H]. rewrite forallb_forall in H.
  destruct (Nat.lt_ge_cases i (rows X)) as [Hi|Hi];
    [|apply entry_outside; [exact Hwf | now left]].
  destruct (Nat.lt_ge_cases j (cols X)) as [Hj|Hj];
    [|apply entry_outside; [exact Hwf | now right]].
  assert (Hrow := H i). rewrite forallb_forall in Hrow.
  specialize (Hrow ltac:(apply in_seq; lia) j ltac:(apply in_seq; lia)).
  apply orb_true_iff in Hrow as [Heq | Hz].
  - apply Nat.eqb_eq in Heq. contradiction.
  - apply negb_true_iff in Hz. now apply Qi_ne0_false.
Qed.

Lemma QiEngine_diagonalizes : Diagonalizes QiEngine.
Proof.
  constructor; intros X P D Hwf Hsq Hd;
    apply Qi_diagonalize_some in Hd as (Hdiag & -> & ->).
  - split; [apply wf_identity|]. split; [exact Hwf|].
    repeat split; try reflexivity; now symmetry.
  - split; [|now apply Qi_diagonal_spec].
    rewrite mmul_identity_r, mmul_identity_l; auto.
  - exists (identity QiEngine (rows X)).
    split; [apply wf_identity|]. split; [reflexivity|]. split; [reflexivity|].
    apply mmul_identity_l; [apply wf_identity | reflexivity | reflexivity].
Qed.

Lemma QiEngine_orthonormal : Orthonormal QiEngine.
Proof.
  intros X P D Hwf Hsq Hd.
  apply Qi_diagonalize_some in Hd as (Hdiag & -> & ->).
  rewrite dagger_identity.
  split; apply mmul_identity_l; (apply wf_identity || reflexivity).
Qed.
End GaussianDiagonalization.

(** ** What [measure] returns *)

Section MeasureOutcome.
Variable A : Provider.

(** The reconstruction loop never appends an entry: the attribute lookup in
    its body fails before the [append]. *)
Lemma reconstruct_outcomes pairs :
  reconstruct A pairs [] = Raise (AttributeError "col_insert")
  \/ reconstruct A pairs [] = Ok [].
Proof.
  rewrite reconstruct_spec. destruct (existsb _ _); [now left | now right].
Qed.

(** The engine tells [-1] from [0]. *)
Hypothesis minus_one : ne0 A (simplify A (sub A (zero A) (one A))) = true.

Lemma empty_ensemble_rejected :
  MixedState_init A [] = Raise InvalidEnsembleError.
Proof. unfold MixedState_init, residual, total. cbn. now rewrite minus_one. Qed.

Lemma collapse_never_returns rho projectors i r :
  collapse A rho projectors i <> Ok r.
Proof.
  unfold collapse. destruct (nth_error projectors i) as [proj|]; [|discriminate].
  destruct (mmul A proj rho) as [left|]; [cbn [bind]|discriminate].
  destruct (mmul A left proj) as [prod|]; [cbn [bind]|discriminate].
  destruct (mtrace A _) as [tr|]; [cbn [bind]|discriminate].
  destruct (diagonalize A _) as [[evals evecs]|]; [|discriminate].
  destruct (reconstruct_outcomes (combine (iter_matrix evals) (iter_matrix evecs)))
    as [-> | ->]; cbn [bind]; [discriminate|].
  rewrite empty_ensemble_rejected. discriminate.
Qed.

Lemma select_never_returns rho projectors probs i r :
  select A rho projectors probs i <> Ok r.
Proof.
  rewrite select_first_nonzero. destruct (first_nonzero A probs i).
  - apply collapse_never_returns.
  - discriminate.
Qed.
End MeasureOutcome.

(** * The properties of the specification *)

(** ** Construction of a [MixedState] *)

(** An ensemble with one symbolic probability [p]: its residual [p - 1] is
    neither a definite value nor provably non-zero ([p = 1] makes it zero),
    and the constructor rejects it all the same, so rejection is not
    confined to the provably non-zero residuals. *)
Lemma symbolic_residual_rejected :
  let ens := [(Sym "p", mkPureState (basis_amplitudes SymEngine 2 0))] in
  ~ definite (residual SymEngine ens)
  /\ ~ (MixedState_init SymEngine ens = Raise InvalidEnsembleError
        <-> provably_nonzero (residual SymEngine ens)).
Proof.
  cbn zeta. split.
  - intros [q Hq]. vm_compute in Hq. discriminate Hq.
  - intros [Hfails _].
    assert (Hnz : provably_nonzero
                    (residual SymEngine
                       [(Sym "p", mkPureState (basis_amplitudes SymEngine 2 0))]))
      by (apply Hfails; reflexivity).
    apply (Hnz (fun _ => Qi_one)).
    apply Qi_eq; apply Qc_is_canon; vm_compute; reflexivity.
Qed.

(** C2, as the code has it: [MixedState(ensemble)] raises
    [ValueError("Probabilities must sum to 1.")] exactly when the simplified
    residual [simplify(total - 1)] is not the number 0 under [!=], and
    otherwise stores the ensemble as it is; a residual that stays symbolic
    is therefore rejected.  The float probabilities [0.5, 0.4] are rejected,
    whatever the two states and whichever comparison SymPy makes.  The float
    probabilities [0.5, 0.5] leave the residual [Float(0.0)]: they are
    rejected where a [Float] never equals the integer 0 (SymPy 1.13 and
    later) and accepted only where the two are compared by value.  The
    exact probabilities [1/2, 2/5] are rejected and [1/2, 1/2] accepted. *)
Theorem MixedState_init_residual :
  (forall (A : Provider) (ens : Ensemble A),
      (MixedState_init A ens = Raise InvalidEnsembleError
       <-> ne0 A (residual A ens) = true)
      /\ (MixedState_init A ens = Ok (mkMixedState ens)
          <-> ne0 A (residual A ens) = false))
  /\ (forall (structural : bool) (psi1 psi2 : PureState (FloatEngine structural)),
         MixedState_init (FloatEngine structural)
           [(float_0_5, psi1); (float_0_4, psi2)]
         = Raise InvalidEnsembleError)
  /\ (forall (structural : bool) (psi1 psi2 : PureState (FloatEngine structural)),
         MixedState_init (FloatEngine structural)
           [(float_0_5, psi1); (float_0_5, psi2)]
         = if structural
           then Raise InvalidEnsembleError
           else Ok (@mkMixedState (FloatEngine structural)
                      [(float_0_5, psi1); (float_0_5, psi2)]))
  /\ (forall psi1 psi2 : PureState QiEngine,
         MixedState_init QiEngine
           [(Qi_of_Q (1 # 2), psi1); (Qi_of_Q (2 # 5), psi2)]
         = Raise InvalidEnsembleError)
  /\ (forall psi1 psi2 : PureState QiEngine,
         MixedState_init QiEngine
           [(Qi_of_Q (1 # 2), psi1); (Qi_of_Q (1 # 2), psi2)]
         = Ok (@mkMixedState QiEngine
                 [(Qi_of_Q (1 # 2), psi1); (Qi_of_Q (1 # 2), psi2)])).
Proof.
  split; [exact MixedState_init_decides|].
  split; [intros [|] psi1 psi2; reflexivity|].
  split; [intros [|] psi1 psi2; reflexivity|].
  split; intros psi1 psi2; reflexivity.
Qed.

(** C10: the empty ensemble is rejected -- its sum is 0 and the residual
    -1 -- so every constructed [MixedState] has a first ensemble element,
    and [density_matrix] does not raise [IndexError] on it. *)
Theorem constructed_has_first_element (A : Provider)
  (minus_one : ne0 A (simplify A (sub A (zero A) (one A))) = true) :
  MixedState_init A [] = Raise InvalidEnsembleError
  /\ forall ens m,
       MixedState_init A ens = Ok m ->
       (exists p psi rest, ensemble m = (p, psi) :: rest)
       /\ density_matrix A m <> Raise IndexError.
Proof.
  split; [now apply empty_ensemble_rejected|].
  intros ens m H. apply MixedState_init_ok in H as [-> H]. cbn [ensemble].
  destruct ens as [|[p psi] rest].
  - unfold residual, total in H. cbn in H. congruence.
  - split; [now exists p, psi, rest|].
    unfold density_matrix. cbn [ensemble]. intros Hraise.
    apply bind_raise in Hraise as [Hraise | (rho & _ & Hraise)]; [|discriminate].
    apply accumulate_raise in Hraise as [Hraise | Hraise]; discriminate.
Qed.

Lemma constructed_has_first_element_witness :
  ne0 QiEngine (simplify QiEngine (sub QiEngine (zero QiEngine) (one QiEngine)))
  = true
  /\ MixedState_init QiEngine [] = Raise InvalidEnsembleError.
Proof.
  split; [reflexivity|].
  apply (constructed_has_first_element QiEngine). reflexivity.
Defined.

(** ** The density matrix *)

Ltac qi_eq := apply Qi_eq; apply Qc_is_canon; vm_compute; reflexivity.

Lemma qubit_is_ket k : is_ket QiEngine 2 (qubit k).
Proof. split; [apply wf_tabulate | split; reflexivity]. Qed.

Lemma qubit_normalized k : k < 2 -> normalized QiEngine (qubit k).
Proof.
  intros Hk. apply (norm2_normalized (L := QiEngine_lawful) 2 (qubit k) (qubit_is_ket k)).
  destruct k as [|[|k]]; [qi_eq | qi_eq | lia].
Qed.

Lemma mixed_qubit_kets : kets QiEngine 2 mixed_qubit.
Proof.
  unfold kets, mixed_qubit.
  apply Forall_cons; [apply qubit_is_ket|].
  apply Forall_cons; [apply qubit_is_ket|].
  apply Forall_nil.
Qed.

(** The state [2|0>] with probability 1 is constructed, and the trace of
    its density matrix is 4. *)
Lemma unnormalized_trace_is_four :
  pure_as_mixed QiEngine long_amplitudes = Ok long_state
  /\ exists rho,
       density_matrix QiEngine long_state = Ok rho
       /\ mtrace QiEngine rho = Ok (Qi_of_Q 4)
       /\ Qi_of_Q 4 <> one QiEngine.
Proof.
  split; [reflexivity|].
  eexists. split; [vm_compute; reflexivity|]. split.
  - vm_compute. first [reflexivity | f_equal; qi_eq].
  - intros H. apply (f_equal (fun x => Qc_eqb (re x) (Q2Qc 1))) in H.
    vm_compute in H. discriminate H.
Qed.

(** C7, amended: over an exact engine, for every constructed [MixedState]
    whose states are kets of one dimension, each normalized, the trace of
    [density_matrix()] is 1. *)
Theorem density_matrix_trace (A : Provider) (L : Lawful A) (d : nat)
  (ens : Ensemble A) (m : MixedState A) :
  kets A d ens ->
  Forall (fun e => normalized A (snd e)) ens ->
  MixedState_init A ens = Ok m ->
  exists rho, density_matrix A m = Ok rho /\ mtrace A rho = Ok (one A).
Proof.
  intros Hk Hn Hm.
  pose proof (constructed_nonempty ens m Hm) as Hne.
  apply MixedState_init_exact in Hm as [-> Htotal]. cbn [ensemble] in Hne.
  exists (tabulate d d (mixture A ens)). split.
  - now apply density_matrix_table.
  - rewrite mtrace_table. f_equal.
    rewrite (trace_normalized d) by assumption. exact Htotal.
Qed.

Lemma density_matrix_trace_witness :
  kets QiEngine 2 mixed_qubit
  /\ Forall (fun e => normalized QiEngine (snd e)) mixed_qubit
  /\ MixedState_init QiEngine mixed_qubit = Ok (mkMixedState mixed_qubit)
  /\ exists rho,
       density_matrix QiEngine (mkMixedState mixed_qubit) = Ok rho
       /\ mtrace QiEngine rho = Ok (one QiEngine).
Proof.
  assert (Hk : kets QiEngine 2 mixed_qubit) by exact mixed_qubit_kets.
  assert (Hn : Forall (fun e => normalized QiEngine (snd e)) mixed_qubit).
  { apply Forall_cons; [apply qubit_normalized; lia|].
    apply Forall_cons; [apply qubit_normalized; lia|].
    apply Forall_nil. }
  assert (Hm : MixedState_init QiEngine mixed_qubit
               = Ok (mkMixedState mixed_qubit)) by reflexivity.
  split; [exact Hk|]. split; [exact Hn|]. split; [exact Hm|].
  exact (density_matrix_trace QiEngine QiEngine_lawful 2 mixed_qubit
           (mkMixedState mixed_qubit) Hk Hn Hm).
Defined.

(** C8: over an exact engine, for every valid ensemble -- kets of one
    dimension with real probabilities, accepted by the constructor --
    [density_matrix()] equals its own conjugate-transpose. *)
Theorem density_matrix_hermitian (A : Provider) (L : Lawful A) (d : nat)
  (ens : Ensemble A) (m : MixedState A) :
  kets A d ens ->
  Forall (fun e => real A (fst e)) ens ->
  MixedState_init A ens = Ok m ->
  exists rho, density_matrix A m = Ok rho /\ dagger A rho = rho.
Proof.
  intros Hk Hreal Hm.
  pose proof (constructed_nonempty ens m Hm) as Hne.
  apply MixedState_init_ok in Hm as [-> _]. cbn [ensemble] in Hne.
  exists (tabulate d d (mixture A ens)). split.
  - now apply density_matrix_table.
  - rewrite dagger_table. apply tabulate_ext. intros i j _ _.
    now apply mixture_conj.
Qed.

Lemma density_matrix_hermitian_witness :
  kets QiEngine 2 mixed_qubit
  /\ Forall (fun e => real QiEngine (fst e)) mixed_qubit
  /\ MixedState_init QiEngine mixed_qubit = Ok (mkMixedState mixed_qubit)
  /\ exists rho,
       density_matrix QiEngine (mkMixedState mixed_qubit) = Ok rho
       /\ dagger QiEngine rho = rho.
Proof.
  assert (Hk : kets QiEngine 2 mixed_qubit) by exact mixed_qubit_kets.
  assert (Hreal : Forall (fun e => real QiEngine (fst e)) mixed_qubit).
  { apply Forall_cons; [qi_eq|].
    apply Forall_cons; [qi_eq|].
    apply Forall_nil. }
  assert (Hm : MixedState_init QiEngine mixed_qubit
               = Ok (mkMixedState mixed_qubit)) by reflexivity.
  split; [exact Hk|]. split; [exact Hreal|]. split; [exact Hm|].
  exact (density_matrix_hermitian QiEngine QiEngine_lawful 2 mixed_qubit
           (mkMixedState mixed_qubit) Hk Hreal Hm).
Defined.

(** ** Measurement *)

(** C4: [measure] raises [RuntimeError("All outcome probabilities are
    zero.")], the spec's [DegenerateMeasurementError], if and only if the
    outcome probabilities are computed and every one of them simplifies to
    0; and over an exact engine the state [|0>] of dimension 2 measured
    against the single projector [|1><1|] raises it. *)
Theorem measure_degenerate :
  (forall (A : Provider) (m : MixedState A) (projectors : list (Matrix (Scalar A))),
      measure A m projectors = Raise DegenerateMeasurementError
      <-> exists rho probs,
            density_matrix A m = Ok rho
            /\ probabilities A rho projectors = Ok probs
            /\ forallb (fun p => negb (ne0 A p)) probs = true)
  /\ (forall A : Provider, Lawful A ->
        exists m, pure_as_mixed A (basis_amplitudes A 2 0) = Ok m
                  /\ measure A m [basis_projector A 2 1]
                     = Raise DegenerateMeasurementError).
Proof.
  split.
  - intros A m projectors. unfold measure. split.
    + intros H. apply bind_raise in H as [H | (rho & Hrho & H)].
      { apply density_matrix_raise in H as [H | [H | H]]; discriminate H. }
      apply bind_raise in H as [H | (probs & Hprobs & H)].
      { apply probabilities_raise in H as [H | H]; discriminate H. }
      exists rho, probs. repeat split; try assumption.
      now apply select_degenerate in H.
    + intros (rho & probs & -> & Hprobs & Hzero). cbn [bind].
      rewrite Hprobs. cbn [bind]. now apply select_degenerate.
  - intros A L. apply zero_ket_against_one_projector.
Qed.

Lemma measure_degenerate_witness :
  Lawful QiEngine
  /\ exists m, pure_as_mixed QiEngine (basis_amplitudes QiEngine 2 0) = Ok m
               /\ measure QiEngine m [basis_projector QiEngine 2 1]
                  = Raise DegenerateMeasurementError.
Proof.
  split; [exact QiEngine_lawful|].
  apply (proj2 measure_degenerate QiEngine QiEngine_lawful).
Defined.

(** C1, what the code does instead: the loop over [zip(evals, evecs)]
    never emits an ensemble entry.  [diagonalize] returns [(P, D)], so the
    loop runs over pairs of single entries of [P] and of [D]; at the first
    non-zero entry of [P] the lookup of [col_insert] on a scalar raises
    [AttributeError], and with none the ensemble stays empty.  Over an
    exact engine an invertible [P] of dimension 1 or more always has such
    an entry.  Measuring [|0>] in the computational basis raises the
    [AttributeError]. *)
Theorem reconstruction_emits_nothing :
  (forall (A : Provider) (pairs : list (Scalar A * Scalar A)),
      reconstruct A pairs [] = Raise (AttributeError "col_insert")
      \/ reconstruct A pairs [] = Ok [])
  /\ (forall (A : Provider) (n : nat) (P D Q : Matrix (Scalar A)),
         Lawful A -> 0 < n ->
         wf P -> rows P = n -> cols P = n ->
         wf D -> rows D = n -> cols D = n ->
         cols Q = n -> rows Q = n ->
         mmul A Q P = Ok (identity A n) ->
         reconstruct A (combine (iter_matrix P) (iter_matrix D)) []
         = Raise (AttributeError "col_insert"))
  /\ pure_as_mixed QiEngine (basis_amplitudes QiEngine 2 0) = Ok zero_state
  /\ measure QiEngine zero_state computational_basis
     = Raise (AttributeError "col_insert").
Proof.
  split; [exact reconstruct_outcomes|].
  split; [|split; reflexivity].
  intros A n P D Q L. now apply reconstruct_invertible.
Qed.

Lemma reconstruction_emits_nothing_witness :
  Lawful QiEngine
  /\ mmul QiEngine (identity QiEngine 2) (identity QiEngine 2)
     = Ok (identity QiEngine 2)
  /\ reconstruct QiEngine
       (combine (iter_matrix (identity QiEngine 2))
                (iter_matrix (basis_projector QiEngine 2 0))) []
     = Raise (AttributeError "col_insert").
Proof.
  assert (Hinv : mmul QiEngine (identity QiEngine 2) (identity QiEngine 2)
                 = Ok (identity QiEngine 2))
    by (apply mmul_identity_l; [apply wf_identity | reflexivity | reflexivity]).
  split; [exact QiEngine_lawful|]. split; [exact Hinv|].
  apply (proj1 (proj2 reconstruction_emits_nothing) QiEngine 2
           (identity QiEngine 2) (basis_projector QiEngine 2 0)
           (identity QiEngine 2) QiEngine_lawful);
    try reflexivity; try apply wf_tabulate; try exact Hinv.
  apply Nat.lt_0_succ.
Defined.

(** C3, what the code does instead: the probabilities are computed in input
    order and the first index whose probability is not 0 is the one handed
    on, but no call of [measure] returns a pair: the branch of the selected
    outcome always raises. *)
Theorem measure_never_returns (A : Provider)
  (minus_one : ne0 A (simplify A (sub A (zero A) (one A))) = true)
  (m : MixedState A) (projectors : list (Matrix (Scalar A))) :
  (forall r, measure A m projectors <> Ok r)
  /\ forall rho probs,
       density_matrix A m = Ok rho ->
       probabilities A rho projectors = Ok probs ->
       measure A m projectors =
       match first_nonzero A probs 0 with
       | Some k => collapse A rho projectors k
       | None => Raise DegenerateMeasurementError
       end.
Proof.
  split.
  - intros r H. unfold measure in H.
    apply bind_ok in H as (rho & _ & H). apply bind_ok in H as (probs & _ & H).
    now apply select_never_returns in H.
  - intros rho probs Hrho Hprobs. unfold measure.
    rewrite Hrho. cbn [bind]. rewrite Hprobs. cbn [bind].
    apply select_first_nonzero.
Qed.

Lemma measure_never_returns_witness :
  ne0 QiEngine (simplify QiEngine (sub QiEngine (zero QiEngine) (one QiEngine)))
  = true
  /\ forall r, measure QiEngine (mkMixedState mixed_qubit) computational_basis
               <> Ok r.
Proof.
  split; [reflexivity|].
  apply (measure_never_returns QiEngine eq_refl
           (mkMixedState mixed_qubit) computational_basis).
Defined.

(** The equal mixture of [|0>] and [|1>] measured in the computational
    basis: the probabilities are 1/2 and 1/2, outcome 0 is selected, and its
    branch raises. *)
Example measure_mixed_qubit :
  measure QiEngine (mkMixedState mixed_qubit) computational_basis
  = Raise (AttributeError "col_insert").
Proof. reflexivity. Qed.

(** ** Partial trace *)

Section PartialTraceErrors.
Variable A : Provider.

Lemma invalid_keep_test subsys_dims keep :
  invalid_keep subsys_dims keep ->
  match keep with [] => true | _ => out_of_range subsys_dims keep end = true.
Proof.
  intros [-> | (k & Hin & Hk)]; [reflexivity|].
  destruct keep as [|k0 rest]; [reflexivity|].
  unfold out_of_range. apply existsb_exists. exists k. split; [exact Hin|].
  now apply Nat.leb_le.
Qed.

Lemma partial_trace_dimension_error (m : MixedState A) subsys_dims keep :
  product subsys_dims <> dimension A m ->
  partial_trace A m subsys_dims keep = Raise DimensionMismatchError.
Proof.
  intros Hd. unfold partial_trace, partial_trace_ensemble.
  replace (dimension A (mkMixedState (ensemble m))) with (dimension A m)
    by now destruct m.
  apply Nat.eqb_neq in Hd. now rewrite Hd.
Qed.

Lemma partial_trace_subsystem_error (m : MixedState A) subsys_dims keep :
  product subsys_dims = dimension A m ->
  invalid_keep subsys_dims keep ->
  partial_trace A m subsys_dims keep = Raise InvalidSubsystemError.
Proof.
  intros Hd Hk. unfold partial_trace, partial_trace_ensemble.
  replace (dimension A (mkMixedState (ensemble m))) with (dimension A m)
    by now destruct m.
  apply Nat.eqb_eq in Hd. rewrite Hd. cbn [negb].
  now rewrite (invalid_keep_test _ _ Hk).
Qed.
End PartialTraceErrors.

(** C6: [partial_trace] fails with [DimensionMismatchError] whenever the
    product of [subsys_dims] differs from the dimension of the state, and
    fails whenever [keep] is empty or holds an index out of range -- with
    [InvalidSubsystemError] when the dimensions agree, the check of the
    dimensions coming first as in the spec's list. *)
Theorem partial_trace_errors (A : Provider) (m : MixedState A)
  (subsys_dims keep : list nat) :
  (product subsys_dims <> dimension A m ->
   partial_trace A m subsys_dims keep = Raise DimensionMismatchError)
  /\ (invalid_keep subsys_dims keep ->
      is_ok (partial_trace A m subsys_dims keep) = false
      /\ (product subsys_dims = dimension A m ->
          partial_trace A m subsys_dims keep = Raise InvalidSubsystemError)).
Proof.
  split; [apply partial_trace_dimension_error|].
  intros Hk. split.
  - destruct (Nat.eq_dec (product subsys_dims) (dimension A m)) as [Hd|Hd].
    + now rewrite partial_trace_subsystem_error.
    + now rewrite partial_trace_dimension_error.
  - intros Hd. now apply partial_trace_subsystem_error.
Qed.

Lemma partial_trace_errors_witness :
  (product [2; 2] <> dimension QiEngine zero_state
   /\ partial_trace QiEngine zero_state [2; 2] [0] = Raise DimensionMismatchError)
  /\ (invalid_keep [2] [1] /\ product [2] = dimension QiEngine zero_state
      /\ partial_trace QiEngine zero_state [2] [1] = Raise InvalidSubsystemError)
  /\ (invalid_keep [2] [] /\ product [2] = dimension QiEngine zero_state
      /\ partial_trace QiEngine zero_state [2] [] = Raise InvalidSubsystemError).
Proof.
  assert (Hne : product [2; 2] <> dimension QiEngine zero_state)
    by (intros H; discriminate H).
  assert (Hout : invalid_keep [2] [1])
    by (right; exists 1; split; [now left | apply Nat.le_refl]).
  assert (Hempty : invalid_keep [2] []) by now left.
  split; [split; [exact Hne|]|split; (split; [assumption|split; [reflexivity|]])].
  - exact (proj1 (partial_trace_errors QiEngine zero_state [2; 2] [0]) Hne).
  - exact (proj2 (proj2 (partial_trace_errors QiEngine zero_state [2] [1]) Hout)
             eq_refl).
  - exact (proj2 (proj2 (partial_trace_errors QiEngine zero_state [2] []) Hempty)
             eq_refl).
Defined.

(** *** The spectral ensemble of a diagonalization *)

Section SpectralEnsemble.
Context {A : Provider} {L : Lawful A}.
Local Abbreviation Sc := (Scalar A).
Local Abbreviation Mx := (Matrix (Scalar A)).

Add Field spectral_field : (law_field L).

Lemma reduce_members_shape dims keep (ens : Ensemble A) (acc R : Mx) :
  reduce_members A dims keep ens acc = Ok R -> wf acc ->
  wf R /\ rows R = rows acc /\ cols R = cols acc.
Proof.
  revert acc. induction ens as [|[p psi] rest IH]; intros acc; cbn.
  - intros [= <-] Hwf. split; [exact Hwf | split; reflexivity].
  - intros H Hwf. apply bind_ok in H as (outer & _ & H).
    apply bind_ok in H as (acc' & Hacc & H).
    unfold madd in Hacc. destruct (_ && _); [|discriminate].
    injection Hacc as <-.
    apply IH in H; [|apply wf_tabulate]. exact H.
Qed.

Lemma PureState_init_column (P : Mx) j :
  PureState_init A (column_of (zero A) P j)
  = Ok (mkPureState (column_of (zero A) P j)).
Proof. unfold PureState_init. cbn [column_of tabulate cols Nat.eqb negb]. now rewrite msimplify_id. Qed.

Lemma column_is_ket (P : Mx) j :
  is_ket A (rows P) (mkPureState (column_of (zero A) P j)).
Proof. split; [apply wf_tabulate | split; reflexivity]. Qed.

Lemma amp_column (P : Mx) j k :
  k < rows P -> amp A (mkPureState (column_of (zero A) P j)) k = ent A P k j.
Proof.
  intros Hk. unfold amp, column_of. cbn [vec]. rewrite ent_tabulate by lia.
  reflexivity.
Qed.

(** With orthonormal columns, the kets of the spectral ensemble are
    normalized; the ensemble lists the columns of the non-zero
    eigenvalues. *)
Lemma spectral_ensemble_sound n (P D : Mx) js (ens : Ensemble A) :
  rows P = n ->
  (forall j, In j js -> j < n) ->
  mmul A (dagger A P) P = Ok (identity A n) -> wf P -> cols P = n ->
  spectral_ensemble A
    (map (fun j => (ent A D j j, column_of (zero A) P j)) js) = Ok ens ->
  kets A n ens
  /\ Forall (fun e => normalized A (snd e)) ens
  /\ ens = map (fun j => (ent A D j j, mkPureState (column_of (zero A) P j)))
             (filter (fun j => ne0 A (ent A D j j)) js).
Proof.
  intros Hr Hjs Hunit Hwf Hc. revert ens.
  induction js as [|j js IH]; intros ens; cbn [map spectral_ensemble filter].
  - intros [= <-]. repeat split; constructor.
  - assert (Hj : j < n) by (apply Hjs; now left).
    assert (IH' := IH (fun k Hk => Hjs k (or_intror Hk))).
    destruct (ne0 A (ent A D j j)).
    + rewrite PureState_init_column. cbn [bind]. intros H.
      apply bind_ok in H as (tl & Htl & H). injection H as <-.
      destruct (IH' tl Htl) as (Hk & Hn & ->).
      repeat split; cbn [map]; try reflexivity.
      * constructor; [|exact Hk]. cbn [snd]. rewrite <- Hr. apply column_is_ket.
      * constructor; [|exact Hn]. cbn [snd].
        apply (norm2_normalized n); [rewrite <- Hr; apply column_is_ket|].
        unfold norm2.
        pose proof (mmul_entry (dagger A P) P (identity A n) j j Hunit) as E.
        change (rows (dagger A P)) with (cols P) in E.
        change (cols (dagger A P)) with (rows P) in E.
        rewrite Hc, Hr in E. specialize (E Hj Hj).
        rewrite ent_identity, Nat.eqb_refl in E by assumption.
        rewrite E. apply sum_n_ext. intros k Hk'.
        rewrite amp_column by lia.
        rewrite ent_dagger by (assumption || lia). reflexivity.
    + apply IH'.
Qed.
End SpectralEnsemble.

(** *** Two qubits, the first kept *)

Section TwoQubits.
Context {A : Provider} {L : Lawful A}.
Hypothesis Dg : Diagonalizes A.
Hypothesis On : Orthonormal A.
Local Abbreviation Sc := (Scalar A).
Local Abbreviation Mx := (Matrix (Scalar A)).

Add Field two_qubit_field : (law_field L).

(** What [partial_trace([2, 2], [0])] went through when it returns. *)
Lemma partial_trace_first_qubit (m m' : MixedState A) :
  partial_trace A m [2; 2] [0] = Ok m' ->
  exists reduced P D,
    wf reduced /\ rows reduced = 2 /\ cols reduced = 2
    /\ diagonalize A reduced = Some (P, D)
    /\ spectral_ensemble A (eigenpairs A P D) = Ok (ensemble m')
    /\ MixedState_init A (ensemble m') = Ok m'.
Proof.
  unfold partial_trace. intros H.
  apply bind_ok in H as (new_ensemble & Hpte & Hinit).
  pose proof (MixedState_init_ok A _ _ Hinit) as [-> _]. cbn [ensemble].
  unfold partial_trace_ensemble in Hpte.
  destruct (negb _); [discriminate|].
  cbn [out_of_range existsb length Nat.leb orb] in Hpte.
  change (product (kept_dims [2; 2] [0])) with 2 in Hpte.
  apply bind_ok in Hpte as (reduced & Hred & Hpte).
  destruct (diagonalize A reduced) as [[P D]|] eqn:Hdiag; [|discriminate].
  apply reduce_members_shape in Hred as (Hwf & Hr & Hc); [|apply wf_tabulate].
  exists reduced, P, D.
  split; [exact Hwf|]. split; [exact Hr|]. split; [exact Hc|].
  repeat split; assumption.
Qed.

(** The result is a state of one qubit whose density matrix has trace 1. *)
Lemma partial_trace_first_qubit_trace (m m' : MixedState A) :
  partial_trace A m [2; 2] [0] = Ok m' ->
  dimension A m' = 2
  /\ exists rho, density_matrix A m' = Ok rho
                 /\ rows rho = 2 /\ cols rho = 2
                 /\ mtrace A rho = Ok (one A).
Proof.
  intros H.
  apply partial_trace_first_qubit in H
    as (reduced & P & D & Hwf & Hr & Hc & Hdiag & Hspec & Hinit).
  assert (Hsq : rows reduced = cols reduced) by congruence.
  destruct (diag_shape A Dg reduced P D Hwf Hsq Hdiag)
    as (HwfP & _ & HrP & HcP & _ & _).
  destruct (On reduced P D Hwf Hsq Hdiag) as [Hunit _].
  rewrite Hr in HrP, HcP, Hunit.
  unfold eigenpairs in Hspec.
  apply (spectral_ensemble_sound 2) in Hspec as (Hk & Hn & _);
    try assumption; [|intros j Hj; apply in_seq in Hj; lia].
  pose proof (constructed_nonempty _ _ Hinit) as Hne.
  apply MixedState_init_exact in Hinit as [_ Htotal].
  split.
  - unfold dimension. destruct (ensemble m') as [|[p psi] rest]; [congruence|].
    inversion Hk as [|? ? (_ & Hrows & _) _]. exact Hrows.
  - exists (tabulate 2 2 (mixture A (ensemble m'))).
    split; [now apply density_matrix_table|]. split; [reflexivity|].
    split; [reflexivity|].
    rewrite mtrace_table. f_equal.
    rewrite (trace_normalized 2) by assumption. exact Htotal.
Qed.

(** *** The Bell state *)

Variable r : Sc.
Hypothesis r_norm : mul A r (conjugate A r) = half A.
Hypothesis two_nonzero : add A (one A) (one A) <> zero A.

Lemma half_nonzero : ne0 A (half A) = true.
Proof.
  apply ne0_true. unfold half. intros H.
  apply one_neq_zero.
  transitivity (mul A (div A (one A) (add A (one A) (one A)))
                      (add A (one A) (one A))).
  - field. exact two_nonzero.
  - rewrite H. ring.
Qed.

Lemma half_plus_half : add A (half A) (half A) = one A.
Proof. unfold half. field. exact two_nonzero. Qed.

Lemma bell_constructed :
  pure_as_mixed A (bell_amplitudes A r)
  = Ok (mkMixedState [(one A, mkPureState (bell_amplitudes A r))]).
Proof.
  unfold pure_as_mixed, PureState_init.
  cbn [bell_amplitudes column cols Nat.eqb negb bind].
  rewrite msimplify_id. unfold to_mixed.
  apply MixedState_init_exact. split; [reflexivity|].
  unfold total. cbn. ring.
Qed.

Lemma bell_reduced :
  reduce_members A [2; 2] [0]
    [(one A, mkPureState (bell_amplitudes A r))] (mzeros A 2)
  = Ok (maximally_mixed A).
Proof.
  cbn [reduce_members].
  rewrite (outer_table 4) by (split; [apply wf_column | split; reflexivity]).
  cbn [bind]. unfold madd. cbn.
  unfold maximally_mixed, tabulate. cbn [map seq Nat.eqb].
  unfold sum_n, ent, entry, amp, ent, entry. cbn.
  rewrite ?conj_zero.
  repeat f_equal; try (rewrite <- r_norm; ring); try ring.
Qed.
Lemma sum_n_2 (f : nat -> Sc) : sum_n A 2 f = add A (f 0) (f 1).
Proof. cbn. ring. Qed.

Lemma eigenvalue_of_unit_vector (a b d h : Sc) :
  mul A h a = mul A a d -> mul A h b = mul A b d ->
  add A (mul A (conjugate A a) a) (mul A (conjugate A b) b) = one A ->
  d = h.
Proof.
  intros Ha Hb Hu.
  transitivity (mul A d (add A (mul A (conjugate A a) a) (mul A (conjugate A b) b))).
  { rewrite Hu. ring. }
  transitivity (add A (mul A (conjugate A a) (mul A a d))
                      (mul A (conjugate A b) (mul A b d))).
  { ring. }
  rewrite <- Ha, <- Hb.
  transitivity (mul A h (add A (mul A (conjugate A a) a) (mul A (conjugate A b) b))).
  { ring. }
  rewrite Hu. ring.
Qed.

Lemma ent_maximally_mixed i j :
  i < 2 -> j < 2 ->
  ent A (maximally_mixed A) i j = if Nat.eqb i j then half A else zero A.
Proof. intros Hi Hj. unfold maximally_mixed. now rewrite ent_tabulate. Qed.

Variables P D : Mx.
Hypothesis diagonalized : diagonalize A (maximally_mixed A) = Some (P, D).

Lemma bell_eigenvectors :
  wf P /\ rows P = 2 /\ cols P = 2
  /\ mmul A (dagger A P) P = Ok (identity A 2)
  /\ mmul A P (dagger A P) = Ok (identity A 2).
Proof.
  assert (Hwf : wf (maximally_mixed A)) by apply wf_tabulate.
  destruct (diag_shape A Dg _ P D Hwf eq_refl diagonalized)
    as (HwfP & _ & HrP & HcP & _ & _).
  destruct (On _ P D Hwf eq_refl diagonalized) as [Hu1 Hu2].
  split; [exact HwfP|]. split; [exact HrP|]. split; [exact HcP|].
  split; [exact Hu1 | exact Hu2].
Qed.

(** Both eigenvalues of [I/2] are 1/2. *)
Lemma bell_eigenvalues j : j < 2 -> ent A D j j = half A.
Proof.
  intros Hj.
  assert (Hwf : wf (maximally_mixed A)) by apply wf_tabulate.
  destruct (diag_shape A Dg _ P D Hwf eq_refl diagonalized)
    as (HwfP & _ & HrP & HcP & HrD & HcD).
  destruct (diag_eigen A Dg _ P D Hwf eq_refl diagonalized) as [Heq Hdiag].
  destruct bell_eigenvectors as (_ & _ & _ & Hunit & _).
  change (rows (maximally_mixed A)) with 2 in *.
  destruct (mmul A (maximally_mixed A) P) as [Z|] eqn:HZ.
  2: { unfold mmul in HZ. rewrite HrP in HZ. discriminate HZ. }
  symmetry in Heq.
  assert (E : forall i, i < 2 ->
            mul A (half A) (ent A P i j) = mul A (ent A P i j) (ent A D j j)).
  { intros i Hi.
    pose proof (mmul_entry _ _ _ i j HZ) as E1.
    pose proof (mmul_entry _ _ _ i j Heq) as E2.
    change (rows (maximally_mixed A)) with 2 in E1.
    change (cols (maximally_mixed A)) with 2 in E1.
    rewrite HrP, HcP, HcD in E2. rewrite HcP in E1.
    specialize (E1 Hi Hj). specialize (E2 Hi Hj). rewrite E1 in E2.
    rewrite !sum_n_2 in E2.
    rewrite !ent_maximally_mixed in E2 by lia.
    destruct j as [|[|j]]; [| |lia]; destruct i as [|[|i]]; try lia;
      cbn [Nat.eqb] in E2.
    - rewrite (Hdiag 1 0) in E2 by lia.
      transitivity (add A (mul A (half A) (ent A P 0 0))
                          (mul A (zero A) (ent A P 1 0))); [ring|].
      rewrite E2. ring.
    - rewrite (Hdiag 1 0) in E2 by lia.
      transitivity (add A (mul A (zero A) (ent A P 0 0))
                          (mul A (half A) (ent A P 1 0))); [ring|].
      rewrite E2. ring.
    - rewrite (Hdiag 0 1) in E2 by lia.
      transitivity (add A (mul A (half A) (ent A P 0 1))
                          (mul A (zero A) (ent A P 1 1))); [ring|].
      rewrite E2. ring.
    - rewrite (Hdiag 0 1) in E2 by lia.
      transitivity (add A (mul A (zero A) (ent A P 0 1))
                          (mul A (half A) (ent A P 1 1))); [ring|].
      rewrite E2. ring. }
  pose proof (mmul_entry _ _ _ j j Hunit) as U.
  change (rows (dagger A P)) with (cols P) in U.
  change (cols (dagger A P)) with (rows P) in U.
  rewrite HcP, HrP in U. specialize (U Hj Hj).
  rewrite ent_identity, Nat.eqb_refl, sum_n_2 in U by assumption.
  rewrite !ent_dagger in U by (assumption || lia).
  apply (eigenvalue_of_unit_vector (ent A P 0 j) (ent A P 1 j)).
  - apply E. lia.
  - apply E. lia.
  - now symmetry.
Qed.
(** The ensemble the partial trace of the Bell state is re-expressed as:
    the two eigenvectors, each with probability 1/2. *)
Lemma bell_partial_trace :
  partial_trace A (mkMixedState [(one A, mkPureState (bell_amplitudes A r))])
    [2; 2] [0]
  = Ok (mkMixedState
          [(half A, mkPureState (column_of (zero A) P 0));
           (half A, mkPureState (column_of (zero A) P 1))]).
Proof.
  destruct bell_eigenvectors as (HwfP & HrP & HcP & _).
  unfold partial_trace, partial_trace_ensemble. cbn [ensemble].
  change (dimension A _) with 4. change (product [2; 2]) with 4.
  cbn [Nat.eqb negb out_of_range existsb length Nat.leb orb].
  change (product (kept_dims [2; 2] [0])) with 2.
  rewrite bell_reduced. cbn [bind]. rewrite diagonalized.
  unfold eigenpairs. rewrite HcP. cbn [seq map spectral_ensemble].
  rewrite !bell_eigenvalues by lia. rewrite half_nonzero.
  rewrite !PureState_init_column. cbn [bind].
  apply MixedState_init_exact. split; [reflexivity|].
  unfold total. cbn [map fst fold_left]. rewrite <- half_plus_half. ring.
Qed.

(** Its density matrix is [I/2]. *)
Lemma bell_reduced_density :
  density_matrix A
    (mkMixedState
       [(half A, mkPureState (column_of (zero A) P 0));
        (half A, mkPureState (column_of (zero A) P 1))])
  = Ok (maximally_mixed A).
Proof.
  destruct bell_eigenvectors as (HwfP & HrP & HcP & _ & Hunit).
  rewrite (density_matrix_table 2); cbn [ensemble].
  - f_equal. unfold maximally_mixed. apply tabulate_ext. intros i j Hi Hj.
    cbn [mixture]. rewrite !amp_column by lia.
    pose proof (mmul_entry _ _ _ i j Hunit) as U.
    change (cols (dagger A P)) with (rows P) in U.
    rewrite HcP, HrP in U. specialize (U Hi Hj).
    rewrite ent_identity, sum_n_2 in U by assumption.
    rewrite !ent_dagger in U by (assumption || lia).
    transitivity (mul A (half A)
                    (add A (mul A (ent A P i 0) (conjugate A (ent A P j 0)))
                           (mul A (ent A P i 1) (conjugate A (ent A P j 1)))));
      [ring|].
    rewrite <- U. destruct (Nat.eqb i j); ring.
  - discriminate.
  - rewrite <- HrP. repeat (apply Forall_cons; [apply column_is_ket|]).
    apply Forall_nil.
Qed.
End TwoQubits.

(** C5: over an exact engine whose diagonalization returns orthonormal
    eigenvectors, the Bell state [r (|00> + |11>)], [|r|^2 = 1/2], held as
    a one-element ensemble, is reduced by [partial_trace([2, 2], [0])] to a
    state of dimension 2 whose density matrix is [I/2]: the ensemble of the
    two eigenvectors returned for [I/2], an orthonormal basis, each with
    probability 1/2.  And whatever the state, a result of
    [partial_trace([2, 2], [0])] has dimension 2 and a density matrix of
    trace 1. *)
Theorem partial_trace_bell (A : Provider) (L : Lawful A)
  (Dg : Diagonalizes A) (On : Orthonormal A)
  (r : Scalar A) (P D : Matrix (Scalar A)) :
  mul A r (conjugate A r) = half A ->
  add A (one A) (one A) <> zero A ->
  diagonalize A (maximally_mixed A) = Some (P, D) ->
  (exists bell reduced,
      pure_as_mixed A (bell_amplitudes A r) = Ok bell
      /\ partial_trace A bell [2; 2] [0] = Ok reduced
      /\ dimension A reduced = 2
      /\ density_matrix A reduced = Ok (maximally_mixed A)
      /\ ensemble reduced
         = [(half A, mkPureState (column_of (zero A) P 0));
            (half A, mkPureState (column_of (zero A) P 1))]
      /\ mmul A (dagger A P) P = Ok (identity A 2))
  /\ forall m m',
       partial_trace A m [2; 2] [0] = Ok m' ->
       dimension A m' = 2
       /\ exists rho, density_matrix A m' = Ok rho
                      /\ rows rho = 2 /\ cols rho = 2
                      /\ mtrace A rho = Ok (one A).
Proof.
  intros Hr H2 Hdiag. split.
  - eexists. eexists.
    split; [apply bell_constructed|].
    split; [now apply (bell_partial_trace Dg On r Hr H2 P D)|].
    destruct (bell_eigenvectors Dg On P D Hdiag) as (_ & HrP & _ & Hunit & _).
    split; [exact HrP|].
    split; [now apply (bell_reduced_density Dg On P D)|].
    split; [reflexivity | exact Hunit].
  - intros m m'. now apply partial_trace_first_qubit_trace.
Qed.

Lemma partial_trace_bell_witness :
  mul QiEngine bell_amplitude (conjugate QiEngine bell_amplitude) = half QiEngine
  /\ add QiEngine (one QiEngine) (one QiEngine) <> zero QiEngine
  /\ diagonalize QiEngine (maximally_mixed QiEngine)
     = Some (identity QiEngine 2, maximally_mixed QiEngine)
  /\ exists bell reduced,
       pure_as_mixed QiEngine (bell_amplitudes QiEngine bell_amplitude) = Ok bell
       /\ partial_trace QiEngine bell [2; 2] [0] = Ok reduced
       /\ density_matrix QiEngine reduced = Ok (maximally_mixed QiEngine).
Proof.
  assert (Hr : mul QiEngine bell_amplitude (conjugate QiEngine bell_amplitude)
               = half QiEngine) by qi_eq.
  assert (H2 : add QiEngine (one QiEngine) (one QiEngine) <> zero QiEngine).
  { intros H. apply (f_equal (fun x => Qc_eqb (re x) (Q2Qc 0))) in H.
    vm_compute in H. discriminate H. }
  assert (Hdiag : diagonalize QiEngine (maximally_mixed QiEngine)
                  = Some (identity QiEngine 2, maximally_mixed QiEngine))
    by reflexivity.
  destruct (partial_trace_bell QiEngine QiEngine_lawful QiEngine_diagonalizes
              QiEngine_orthonormal bell_amplitude _ _ Hr H2 Hdiag)
    as [(bell & reduced & Hbell & Hpt & _ & Hrho & _) _].
  split; [exact Hr|]. split; [exact H2|]. split; [exact Hdiag|].
  exists bell, reduced. repeat split; assumption.
Defined.

(** * Further properties of the code *)

(** ** [PureState.from_tuples] *)

Section PythonListFacts.
Context {T : Type}.

Lemma length_replace_at k (x : T) l : length (replace_at k x l) = length l.
Proof.
  revert k. induction l as [|y l IH]; intros [|k]; cbn; try reflexivity.
  now rewrite IH.
Qed.

Lemma nth_replace_at_eq k (x d : T) l :
  k < length l -> nth k (replace_at k x l) d = x.
Proof.
  revert k. induction l as [|y l IH]; intros [|k]; cbn; intros H;
    try lia; try reflexivity.
  apply IH. lia.
Qed.

Lemma nth_replace_at_neq j k (x d : T) l :
  j <> k -> nth j (replace_at k x l) d = nth j l d.
Proof.
  revert j k. induction l as [|y l IH]; intros [|j] [|k] H; cbn;
    try reflexivity; try lia.
  apply IH. lia.
Qed.

Lemma py_index_lt len idx k : py_index len idx = Some k -> k < len.
Proof.
  unfold py_index.
  destruct ((0 <=? idx)%Z && (idx <? Z.of_nat len)%Z) eqn:H1.
  - intros [= <-]. apply andb_true_iff in H1 as [Ha Hb].
    apply Z.leb_le in Ha. apply Z.ltb_lt in Hb. lia.
  - destruct ((- Z.of_nat len <=? idx)%Z && (idx <? 0)%Z) eqn:H2; [|discriminate].
    intros [= <-]. apply andb_true_iff in H2 as [Ha Hb].
    apply Z.leb_le in Ha. apply Z.ltb_lt in Hb. lia.
Qed.

Lemma py_index_nonneg len idx :
  (0 <= idx < Z.of_nat len)%Z -> py_index len idx = Some (Z.to_nat idx).
Proof.
  intros H. unfold py_index.
  replace ((0 <=? idx)%Z && (idx <? Z.of_nat len)%Z) with true; [reflexivity|].
  symmetry. apply andb_true_iff. split; [apply Z.leb_le | apply Z.ltb_lt]; lia.
Qed.

Lemma py_setitem_ok (l l' : list T) idx x :
  py_setitem l idx x = Ok l' ->
  exists k, py_index (length l) idx = Some k /\ l' = replace_at k x l.
Proof.
  unfold py_setitem. destruct (py_index _ _) as [k|]; [|discriminate].
  intros [= <-]. now exists k.
Qed.
End PythonListFacts.

Section FromTuples.
Variable A : Provider.
Local Abbreviation Sc := (Scalar A).

(** The loop of [from_tuples] keeps the length of the list and leaves at
    each position the coefficient of the last term that names it. *)
Lemma fill_spec d (terms : list (Sc * Z)) (amp0 : list Sc) :
  length amp0 = d ->
  (forall t, In t terms -> py_index d (snd t) <> None) ->
  exists amp',
    fill A terms amp0 = Ok amp' /\ length amp' = d
    /\ forall k, k < d ->
         nth k amp' (zero A)
         = last_coeff_from A d terms k (nth k amp0 (zero A)).
Proof.
  revert amp0. induction terms as [|[c idx] rest IH]; intros amp0 Hlen Hin.
  - exists amp0. now repeat split.
  - cbn [fill]. unfold py_setitem. rewrite Hlen.
    destruct (py_index d idx) as [k0|] eqn:Hidx.
    2: { exfalso. apply (Hin (c, idx)); [now left | exact Hidx]. }
    cbn [bind].
    pose proof (py_index_lt _ _ _ Hidx) as Hk0.
    destruct (IH (replace_at k0 c amp0)) as (amp' & Hfill & Hlen' & Hnth).
    + now rewrite length_replace_at.
    + intros t Ht. apply Hin. now right.
    + exists amp'. split; [exact Hfill|]. split; [exact Hlen'|].
      intros k Hk. rewrite (Hnth k Hk).
      unfold last_coeff_from. cbn [fold_left fst snd].
      f_equal. unfold denotes. rewrite Hidx.
      destruct (Nat.eqb_spec k0 k) as [->|Hne].
      * now rewrite nth_replace_at_eq by lia.
      * now rewrite nth_replace_at_neq by lia.
Qed.

Lemma fill_raises d (terms : list (Sc * Z)) (amp0 : list Sc) :
  length amp0 = d ->
  Exists (fun t => py_index d (snd t) = None) terms ->
  fill A terms amp0 = Raise IndexError.
Proof.
  intros Hlen Hex. revert amp0 Hlen.
  induction terms as [|[c idx] rest IH]; intros amp0 Hlen.
  - inversion Hex.
  - cbn [fill]. unfold py_setitem. rewrite Hlen.
    destruct (py_index d idx) as [k0|] eqn:Hidx; [|reflexivity].
    cbn [bind]. apply IH.
    + inversion Hex as [? ? Hhd | ? ? Htl]; subst; [|exact Htl].
      cbn in Hhd. congruence.
    + now rewrite length_replace_at.
Qed.
End FromTuples.

Section FromTuplesResults.
Variable A : Provider.
Local Abbreviation Sc := (Scalar A).

Lemma from_tuples_some (terms : list (Sc * Z)) (dz : Z) :
  (0 <= dz)%Z ->
  (forall t, In t terms -> py_index (Z.to_nat dz) (snd t) <> None) ->
  exists psi,
    from_tuples A terms (Some dz) = Ok psi
    /\ is_ket A (Z.to_nat dz) psi
    /\ forall k, k < Z.to_nat dz ->
         amp A psi k = simplify A (last_coeff A (Z.to_nat dz) terms k).
Proof.
  intros Hdz Hin. unfold from_tuples. cbn [bind].
  destruct (fill_spec A (Z.to_nat dz) terms (repeat (zero A) (Z.to_nat dz)))
    as (amp' & Hfill & Hlen & Hnth); [apply repeat_length | exact Hin |].
  rewrite Hfill. cbn [bind]. unfold reshape_column.
  replace (Z.of_nat (length amp') =? dz * 1)%Z with true
    by (symmetry; apply Z.eqb_eq; lia).
  cbn [negb bind]. unfold PureState_init. cbn [tabulate cols Nat.eqb negb].
  eexists. split; [reflexivity|]. split.
  - split; [apply wf_mmap, wf_tabulate | split; reflexivity].
  - intros k Hk. unfold amp, ent. cbn [vec]. unfold msimplify.
    rewrite entry_mmap by (apply wf_tabulate || cbn; lia).
    rewrite entry_tabulate by lia. f_equal.
    replace (k * 1 + 0) with k by lia. rewrite (Hnth k Hk).
    unfold last_coeff. f_equal.
    apply nth_repeat.
Qed.

Lemma fold_max_ge (l : list Z) (x : Z) :
  (x <= fold_left Z.max l x)%Z
  /\ forall y, In y l -> (y <= fold_left Z.max l x)%Z.
Proof.
  revert x. induction l as [|z l IH]; intros x; cbn [fold_left].
  - split; [lia | intros y []].
  - destruct (IH (Z.max x z)) as [Hx Hl]. split; [lia|].
    intros y [<- | Hy]; [lia | now apply Hl].
Qed.
End FromTuplesResults.

(** X1: [from_tuples(terms, dim)] with every index inside the list of length
    [dim] -- Python's negative indices included -- builds a ket of
    dimension [dim] whose amplitude at each position is the simplified
    coefficient of the last term that names the position, and 0 where no
    term does. *)
Theorem from_tuples_amplitudes (A : Provider) (terms : list (Scalar A * Z))
  (dim : Z) :
  (0 <= dim)%Z ->
  (forall t, In t terms -> py_index (Z.to_nat dim) (snd t) <> None) ->
  exists psi,
    from_tuples A terms (Some dim) = Ok psi
    /\ is_ket A (Z.to_nat dim) psi
    /\ forall k, k < Z.to_nat dim ->
         amp A psi k = simplify A (last_coeff A (Z.to_nat dim) terms k).
Proof. apply from_tuples_some. Qed.

Lemma from_tuples_amplitudes_witness :
  (0 <= 2)%Z
  /\ (forall t, In t plus_i_terms -> py_index (Z.to_nat 2) (snd t) <> None)
  /\ exists psi,
       from_tuples QiEngine plus_i_terms (Some 2%Z) = Ok psi
       /\ is_ket QiEngine 2 psi.
Proof.
  assert (H0 : (0 <= 2)%Z) by lia.
  assert (Hin : forall t, In t plus_i_terms ->
                          py_index (Z.to_nat 2) (snd t) <> None).
  { intros t [<- | [<- | []]]; discriminate. }
  split; [exact H0|]. split; [exact Hin|].
  destruct (from_tuples_amplitudes QiEngine plus_i_terms 2%Z H0 Hin)
    as (psi & Hpsi & Hket & _).
  exists psi. split; [exact Hpsi | exact Hket].
Defined.

(** X2: with [dim] omitted, [from_tuples] raises [ValueError] on an empty
    list of terms, and on terms with non-negative indices it always
    succeeds, with the dimension one more than the largest index. *)
Theorem from_tuples_inferred_dimension (A : Provider)
  (terms : list (Scalar A * Z)) :
  (terms = [] -> exists msg, from_tuples A terms None = Raise (ValueError msg))
  /\ (terms <> [] ->
      (forall t, In t terms -> (0 <= snd t)%Z) ->
      exists top psi,
        py_max (map snd terms) = Ok top
        /\ from_tuples A terms None = Ok psi
        /\ is_ket A (Z.to_nat (top + 1)) psi
        /\ (forall t, In t terms -> (snd t <= top)%Z)
        /\ exists t, In t terms /\ snd t = top).
Proof.
  split.
  - intros ->. eexists. reflexivity.
  - intros Hne Hnonneg. destruct terms as [|[c idx] rest]; [congruence|].
    set (top := fold_left Z.max (map snd rest) idx).
    destruct (fold_max_ge (map snd rest) idx) as [Hidx Hrest]. fold top in Hidx, Hrest.
    assert (Hle : forall t, In t ((c, idx) :: rest) -> (snd t <= top)%Z).
    { intros t [<- | Ht]; [exact Hidx|]. apply Hrest. now apply in_map. }
    assert (Htop : (0 <= top + 1)%Z).
    { specialize (Hnonneg (c, idx) (or_introl eq_refl)). cbn in Hnonneg. lia. }
    destruct (from_tuples_some A ((c, idx) :: rest) (top + 1)%Z Htop)
      as (psi & Hpsi & Hket & _).
    { intros t Ht. rewrite py_index_nonneg; [discriminate|].
      specialize (Hnonneg t Ht). specialize (Hle t Ht). lia. }
    exists top, psi. split; [reflexivity|]. split; [exact Hpsi|].
    split; [exact Hket|]. split; [exact Hle|].
    clear -top. subst top. revert c idx.
    induction rest as [|[c' idx'] rest IH]; intros c idx.
    + exists (c, idx). split; [now left | reflexivity].
    + cbn [map snd fold_left].
      destruct (Z.max_spec idx idx') as [[_ ->] | [_ ->]].
      * destruct (IH c' idx') as (t & Ht & Heq).
        exists t. split; [right; exact Ht | exact Heq].
      * destruct (IH c idx) as (t & [<- | Ht] & Heq).
        -- exists (c, idx). split; [now left | exact Heq].
        -- exists t. split; [right; right; exact Ht | exact Heq].
Qed.

Lemma from_tuples_inferred_dimension_witness :
  plus_i_terms <> []
  /\ (forall t, In t plus_i_terms -> (0 <= snd t)%Z)
  /\ exists psi, from_tuples QiEngine plus_i_terms None = Ok psi
                 /\ is_ket QiEngine 2 psi.
Proof.
  assert (Hne : plus_i_terms <> []) by discriminate.
  assert (Hnn : forall t, In t plus_i_terms -> (0 <= snd t)%Z).
  { intros t [<- | [<- | []]]; cbn; lia. }
  split; [exact Hne|]. split; [exact Hnn|].
  destruct (proj2 (from_tuples_inferred_dimension QiEngine plus_i_terms) Hne Hnn)
    as (top & psi & Htop & Hpsi & Hket & _).
  injection Htop as <-.
  exists psi. split; [exact Hpsi | exact Hket].
Defined.

(** X3: [from_tuples(terms, dim)] raises [IndexError] as soon as one term
    has an index outside the list of length [dim] ([dim] and beyond, or
    below [-dim]); for a negative [dim] the list is empty and every term
    does. *)
Theorem from_tuples_index_error (A : Provider) (terms : list (Scalar A * Z))
  (dim : Z) :
  Exists (fun t => py_index (Z.to_nat dim) (snd t) = None) terms ->
  from_tuples A terms (Some dim) = Raise IndexError.
Proof.
  intros Hex. unfold from_tuples. cbn [bind].
  rewrite (fill_raises A (Z.to_nat dim)); [reflexivity | apply repeat_length | exact Hex].
Qed.

Lemma from_tuples_index_error_witness :
  Exists (fun t => py_index (Z.to_nat 1) (snd t) = None) plus_i_terms
  /\ from_tuples QiEngine plus_i_terms (Some 1%Z) = Raise IndexError.
Proof.
  assert (Hex : Exists (fun t => py_index (Z.to_nat 1) (snd t) = None)
                  plus_i_terms).
  { apply Exists_cons_tl. apply Exists_cons_hd. reflexivity. }
  split; [exact Hex|].
  exact (from_tuples_index_error QiEngine plus_i_terms 1%Z Hex).
Defined.

(** ** [PureState.apply_gate] *)

Section Gates.
Context {A : Provider} {L : Lawful A}.
Local Abbreviation Sc := (Scalar A).
Local Abbreviation Mx := (Matrix (Scalar A)).

Add Field gate_field : (law_field L).

Lemma sum_n_mul_r n (c : Sc) (f : nat -> Sc) :
  sum_n A n (fun i => mul A (f i) c) = mul A (sum_n A n f) c.
Proof.
  rewrite (sum_n_ext n _ (fun i => mul A c (f i))) by (intros; ring).
  rewrite sum_n_scale. ring.
Qed.

Lemma sum_n_swap n m (f : nat -> nat -> Sc) :
  sum_n A n (fun i => sum_n A m (fun j => f i j))
  = sum_n A m (fun j => sum_n A n (fun i => f i j)).
Proof.
  induction n as [|n IH].
  - cbn. symmetry. apply sum_n_all_zero. reflexivity.
  - rewrite sum_n_S, IH, <- sum_n_add. apply sum_n_ext.
    intros j _. now rewrite sum_n_S.
Qed.

(** Without [simplify], the state [apply_gate] returns. *)
Lemma apply_gate_table d (psi : PureState A) (gate : Mx) :
  is_ket A d psi -> rows gate = d -> cols gate = d ->
  apply_gate A psi gate
  = Ok (mkPureState
          (tabulate d 1 (fun i j =>
             sum_n A d (fun k => mul A (ent A gate i k) (ent A (vec psi) k j))))).
Proof.
  intros (Hwf & Hr & Hc) Hrg Hcg. unfold apply_gate, mmul.
  rewrite Hrg, Hcg, Hr, Hc, !Nat.eqb_refl. cbn [andb negb bind].
  unfold PureState_init. cbn [tabulate cols Nat.eqb negb].
  now rewrite msimplify_id.
Qed.

Lemma mmul_identity_left n (X : Mx) :
  wf X -> rows X = n -> mmul A (identity A n) X = Ok X.
Proof.
  intros Hwf Hr. unfold mmul.
  change (rows (identity A n)) with n. change (cols (identity A n)) with n.
  rewrite Hr, Nat.eqb_refl. f_equal.
  pose proof (wf_table (zero A) X Hwf) as E. rewrite Hr in E.
  etransitivity; [|symmetry; exact E].
  apply tabulate_ext. intros i j Hi Hj.
  rewrite <- (sum_n_delta_l n i (fun k => entry (zero A) X k j) Hi).
  apply sum_n_ext. intros k Hk. unfold identity.
  now rewrite ent_tabulate.
Qed.

(** The sums of a product of three factors, regrouped. *)
Lemma sum_n_regroup d (g2 : nat -> Sc) (g1 : nat -> nat -> Sc) (x : nat -> Sc) :
  sum_n A d (fun k => mul A (g2 k) (sum_n A d (fun l => mul A (g1 k l) (x l))))
  = sum_n A d (fun l =>
      mul A (sum_n A d (fun k => mul A (g2 k) (g1 k l))) (x l)).
Proof.
  transitivity
    (sum_n A d (fun k => sum_n A d (fun l =>
       mul A (mul A (g2 k) (g1 k l)) (x l)))).
  - apply sum_n_ext. intros k _. rewrite <- sum_n_scale.
    apply sum_n_ext. intros l _. ring.
  - rewrite sum_n_swap. apply sum_n_ext. intros l _.
    now rewrite sum_n_mul_r.
Qed.

(** A unitary change of coordinates keeps the dot product. *)
Lemma unitary_dot d (u : nat -> nat -> Sc) (x y : nat -> Sc) :
  (forall k l, k < d -> l < d ->
     sum_n A d (fun i => mul A (conjugate A (u i k)) (u i l))
     = if Nat.eqb k l then one A else zero A) ->
  sum_n A d (fun i =>
    mul A (conjugate A (sum_n A d (fun k => mul A (u i k) (x k))))
          (sum_n A d (fun l => mul A (u i l) (y l))))
  = sum_n A d (fun k => mul A (conjugate A (x k)) (y k)).
Proof.
  intros Hu.
  transitivity
    (sum_n A d (fun i => sum_n A d (fun k => sum_n A d (fun l =>
       mul A (mul A (conjugate A (x k)) (y l))
             (mul A (conjugate A (u i k)) (u i l)))))).
  { apply sum_n_ext. intros i _.
    rewrite sum_n_conj, <- sum_n_mul_r. apply sum_n_ext. intros k _.
    rewrite <- sum_n_scale. apply sum_n_ext. intros l _.
    rewrite (law_conj_mul L). ring. }
  rewrite sum_n_swap. apply sum_n_ext. intros k Hk.
  rewrite sum_n_swap.
  rewrite <- (sum_n_delta d k (fun l => mul A (conjugate A (x k)) (y l)) Hk).
  apply sum_n_ext. intros l Hl.
  rewrite sum_n_scale, (Hu k l Hk Hl), (Nat.eqb_sym l k). reflexivity.
Qed.

(** [<psi|phi>] for kets of dimension [d]. *)
Lemma inner_table d (psi phi : PureState A) :
  is_ket A d psi -> is_ket A d phi ->
  inner A psi phi
  = Ok (column [sum_n A d (fun k => mul A (conjugate A (amp A psi k)) (amp A phi k))]).
Proof.
  intros (Hwf & Hr & Hc) (Hwf' & Hr' & Hc'). unfold inner, mmul.
  change (cols (dagger A (vec psi))) with (rows (vec psi)).
  change (rows (dagger A (vec psi))) with (cols (vec psi)).
  rewrite Hr, Hr', Hc, Hc', Nat.eqb_refl. cbn [bind]. rewrite msimplify_id.
  unfold tabulate, column. cbn [seq map length]. do 4 f_equal.
  apply sum_n_ext. intros k Hk.
  rewrite ent_dagger by (assumption || lia). reflexivity.
Qed.
End Gates.

(** X4: on a ket of dimension [d], [apply_gate] returns a ket of dimension
    [d] when the gate is [d] x [d], and raises [ValueError] for a gate of
    any other shape; the matrix product inside never raises. *)
Theorem apply_gate_shape (A : Provider) (d : nat) (psi : PureState A)
  (gate : Matrix (Scalar A)) :
  is_ket A d psi ->
  (rows gate = d /\ cols gate = d ->
   exists psi', apply_gate A psi gate = Ok psi' /\ is_ket A d psi')
  /\ (~ (rows gate = d /\ cols gate = d) ->
      apply_gate A psi gate
      = Raise (ValueError "Gate matrix must match state dimension.")).
Proof.
  intros (Hwf & Hr & Hc). split.
  - intros [Hrg Hcg]. unfold apply_gate, mmul.
    rewrite Hrg, Hcg, Hr, Hc, !Nat.eqb_refl. cbn [andb negb bind].
    unfold PureState_init. cbn [tabulate cols Nat.eqb negb].
    eexists. split; [reflexivity|].
    split; [apply wf_mmap, wf_tabulate | split; reflexivity].
  - intros Hshape. unfold apply_gate. rewrite Hr.
    destruct (Nat.eqb_spec (rows gate) d) as [Hrg|Hrg];
      destruct (Nat.eqb_spec (cols gate) d) as [Hcg|Hcg];
      cbn [andb negb]; try reflexivity.
    exfalso. apply Hshape. now split.
Qed.

Lemma apply_gate_shape_witness :
  is_ket QiEngine 2 (qubit 0)
  /\ (exists psi', apply_gate QiEngine (qubit 0) (identity QiEngine 2) = Ok psi'
                   /\ is_ket QiEngine 2 psi')
  /\ apply_gate QiEngine (qubit 0) (identity QiEngine 3)
     = Raise (ValueError "Gate matrix must match state dimension.").
Proof.
  pose proof (apply_gate_shape QiEngine 2 (qubit 0) (identity QiEngine 2)
                (qubit_is_ket 0)) as [Hok _].
  pose proof (apply_gate_shape QiEngine 2 (qubit 0) (identity QiEngine 3)
                (qubit_is_ket 0)) as [_ Hbad].
  split; [apply qubit_is_ket|]. split.
  - apply Hok. split; reflexivity.
  - apply Hbad. intros [H _]. discriminate H.
Defined.

(** X5: over an exact engine the identity gate returns the state it is
    applied to. *)
Theorem apply_gate_identity (A : Provider) (L : Lawful A) (d : nat)
  (psi : PureState A) :
  is_ket A d psi -> apply_gate A psi (identity A d) = Ok psi.
Proof.
  intros (Hwf & Hr & Hc). unfold apply_gate.
  change (rows (identity A d)) with d. change (cols (identity A d)) with d.
  rewrite Hr, !Nat.eqb_refl. cbn [andb negb].
  rewrite (mmul_identity_left d) by assumption. cbn [bind].
  unfold PureState_init. rewrite Hc. cbn [Nat.eqb negb].
  rewrite msimplify_id. now destruct psi.
Qed.

Lemma apply_gate_identity_witness :
  is_ket QiEngine 2 (qubit 1)
  /\ apply_gate QiEngine (qubit 1) (identity QiEngine 2) = Ok (qubit 1).
Proof.
  split; [apply qubit_is_ket|].
  exact (apply_gate_identity QiEngine QiEngine_lawful 2 (qubit 1) (qubit_is_ket 1)).
Defined.

(** X6: over an exact engine, applying the gate [G1] and then [G2] is
    applying the product [G2 * G1]. *)
Theorem apply_gate_compose (A : Provider) (L : Lawful A) (d : nat)
  (psi : PureState A) (G1 G2 : Matrix (Scalar A)) :
  is_ket A d psi ->
  rows G1 = d -> cols G1 = d -> rows G2 = d -> cols G2 = d ->
  exists G,
    mmul A G2 G1 = Ok G
    /\ (psi1 <- apply_gate A psi G1 ;; apply_gate A psi1 G2)
       = apply_gate A psi G.
Proof.
  intros Hket Hr1 Hc1 Hr2 Hc2.
  assert (Hprod : mmul A G2 G1
                  = Ok (tabulate d d (fun i j =>
                          sum_n A d (fun k => mul A (ent A G2 i k) (ent A G1 k j))))).
  { unfold mmul. now rewrite Hc2, Hr1, Hr2, Hc1, Nat.eqb_refl. }
  eexists. split; [exact Hprod|].
  rewrite (apply_gate_table d psi G1) by assumption. cbn [bind].
  rewrite (apply_gate_table d) by
    (assumption || reflexivity
     || (split; [apply wf_tabulate | split; reflexivity])).
  rewrite (apply_gate_table d psi) by (assumption || reflexivity).
  do 2 f_equal. apply tabulate_ext. intros i j Hi Hj. cbn [vec].
  transitivity
    (sum_n A d (fun k =>
       mul A (ent A G2 i k)
             (sum_n A d (fun l => mul A (ent A G1 k l) (ent A (vec psi) l j))))).
  - apply sum_n_ext. intros k Hk. now rewrite ent_tabulate.
  - rewrite sum_n_regroup. apply sum_n_ext. intros l Hl.
    now rewrite ent_tabulate.
Qed.

Lemma apply_gate_compose_witness :
  is_ket QiEngine 2 (qubit 0)
  /\ exists G,
       mmul QiEngine (identity QiEngine 2) (basis_projector QiEngine 2 1) = Ok G
       /\ (psi1 <- apply_gate QiEngine (qubit 0) (basis_projector QiEngine 2 1) ;;
           apply_gate QiEngine psi1 (identity QiEngine 2))
          = apply_gate QiEngine (qubit 0) G.
Proof.
  split; [apply qubit_is_ket|].
  exact (apply_gate_compose QiEngine QiEngine_lawful 2 (qubit 0)
           (basis_projector QiEngine 2 1) (identity QiEngine 2)
           (qubit_is_ket 0) eq_refl eq_refl eq_refl eq_refl).
Defined.

(** X7: over an exact engine a unitary gate keeps inner products: for [U]
    with [U.conjugate().T * U] the identity, the inner product of
    [apply_gate(U)] of two kets is the inner product of the kets, so
    evolution keeps a normalized state normalized. *)
Theorem apply_gate_unitary (A : Provider) (L : Lawful A) (d : nat)
  (psi phi : PureState A) (U : Matrix (Scalar A)) :
  is_ket A d psi -> is_ket A d phi ->
  wf U -> rows U = d -> cols U = d ->
  mmul A (dagger A U) U = Ok (identity A d) ->
  exists psi' phi',
    apply_gate A psi U = Ok psi'
    /\ apply_gate A phi U = Ok phi'
    /\ inner A psi' phi' = inner A psi phi
    /\ (normalized A psi -> normalized A psi').
Proof.
  intros Hpsi Hphi HwfU HrU HcU Hunit.
  assert (Hu : forall k l, k < d -> l < d ->
            sum_n A d (fun i => mul A (conjugate A (ent A U i k)) (ent A U i l))
            = if Nat.eqb k l then one A else zero A).
  { intros k l Hk Hl.
    pose proof (mmul_entry (dagger A U) U (identity A d) k l Hunit) as E.
    change (rows (dagger A U)) with (cols U) in E.
    change (cols (dagger A U)) with (rows U) in E.
    rewrite HcU, HrU in E. specialize (E Hk Hl).
    rewrite ent_identity in E by assumption. rewrite E.
    apply sum_n_ext. intros i Hi.
    rewrite ent_dagger by (assumption || lia). reflexivity. }
  assert (Hinner : forall chi xi : PureState A,
            is_ket A d chi -> is_ket A d xi ->
            inner A
              (mkPureState (tabulate d 1 (fun i j =>
                 sum_n A d (fun k => mul A (ent A U i k) (ent A (vec chi) k j)))))
              (mkPureState (tabulate d 1 (fun i j =>
                 sum_n A d (fun k => mul A (ent A U i k) (ent A (vec xi) k j)))))
            = inner A chi xi).
  { intros chi xi Hchi Hxi.
    rewrite (inner_table d) by
      (split; [apply wf_tabulate | split; reflexivity]).
    rewrite (inner_table d chi xi) by assumption. do 3 f_equal.
    rewrite <- (unitary_dot d (ent A U) (amp A chi) (amp A xi) Hu).
    apply sum_n_ext. intros i Hi. unfold amp. cbn [vec].
    now rewrite !ent_tabulate by lia. }
  eexists. eexists.
  split; [now apply (apply_gate_table d)|].
  split; [now apply (apply_gate_table d)|].
  split; [now apply Hinner|].
  unfold normalized. now rewrite Hinner.
Qed.

Lemma apply_gate_unitary_witness :
  is_ket QiEngine 2 (qubit 0) /\ is_ket QiEngine 2 (qubit 1)
  /\ mmul QiEngine (dagger QiEngine (identity QiEngine 2)) (identity QiEngine 2)
     = Ok (identity QiEngine 2)
  /\ exists psi' phi',
       apply_gate QiEngine (qubit 0) (identity QiEngine 2) = Ok psi'
       /\ apply_gate QiEngine (qubit 1) (identity QiEngine 2) = Ok phi'
       /\ inner QiEngine psi' phi' = inner QiEngine (qubit 0) (qubit 1).
Proof.
  assert (Hunit : mmul QiEngine (dagger QiEngine (identity QiEngine 2))
                    (identity QiEngine 2) = Ok (identity QiEngine 2)).
  { rewrite dagger_identity.
    apply mmul_identity_l; [apply wf_identity | reflexivity | reflexivity]. }
  split; [apply qubit_is_ket|]. split; [apply qubit_is_ket|].
  split; [exact Hunit|].
  destruct (apply_gate_unitary QiEngine QiEngine_lawful 2 (qubit 0) (qubit 1)
              (identity QiEngine 2) (qubit_is_ket 0) (qubit_is_ket 1)
              (wf_identity 2) eq_refl eq_refl Hunit)
    as (psi' & phi' & H1 & H2 & H3 & _).
  exists psi', phi'. split; [exact H1|]. split; [exact H2 | exact H3].
Defined.

(** ** [PureState.to_mixed] and [PureState.inner] *)

(** X8: over an exact engine [to_mixed(prob)] succeeds for the weight 1
    only: any other weight makes the one-element ensemble fail the check of
    [MixedState], with the [ValueError] of the constructor. *)
Theorem to_mixed_weight_one (A : Provider) (L : Lawful A)
  (psi : PureState A) (prob : Scalar A) :
  (prob = one A -> to_mixed A psi prob = Ok (mkMixedState [(prob, psi)]))
  /\ (prob <> one A -> to_mixed A psi prob = Raise InvalidEnsembleError).
Proof.
  assert (Htotal : total A [(prob, psi)] = prob).
  { rewrite total_cons. unfold total. cbn.
    destruct (law_field L) as [[H0 Hcomm _ _ _ _ _ _ _] _ _ _].
    now rewrite Hcomm, H0. }
  unfold to_mixed. split.
  - intros Hp. apply MixedState_init_exact. split; [reflexivity|].
    now rewrite Htotal.
  - intros Hp. apply MixedState_init_decides.
    destruct (ne0 A (residual A [(prob, psi)])) eqn:Hres; [reflexivity|].
    exfalso. apply Hp. rewrite <- Htotal.
    assert (Hok : MixedState_init A [(prob, psi)]
                  = Ok (mkMixedState [(prob, psi)]))
      by (unfold MixedState_init; now rewrite Hres).
    now apply MixedState_init_exact in Hok.
Qed.

Lemma to_mixed_weight_one_witness :
  Qi_of_Q (1 # 2) <> one QiEngine
  /\ to_mixed QiEngine (qubit 0) (Qi_of_Q (1 # 2)) = Raise InvalidEnsembleError.
Proof.
  assert (Hne : Qi_of_Q (1 # 2) <> one QiEngine).
  { intros H. apply (f_equal (fun x => Qc_eqb (re x) (Q2Qc 1))) in H.
    vm_compute in H. discriminate H. }
  split; [exact Hne|].
  exact (proj2 (to_mixed_weight_one QiEngine QiEngine_lawful (qubit 0)
                  (Qi_of_Q (1 # 2))) Hne).
Defined.

(** X9: [inner] of two kets raises [ShapeError] when their dimensions
    differ; for kets of one dimension, over an exact engine, it returns a
    1 x 1 matrix, and swapping the two states conjugates its entry. *)
Theorem inner_conjugate_symmetry (A : Provider) (L : Lawful A) (d1 d2 : nat)
  (psi phi : PureState A) :
  is_ket A d1 psi -> is_ket A d2 phi ->
  (d1 <> d2 -> inner A psi phi = Raise ShapeError)
  /\ (d1 = d2 ->
      exists z, inner A psi phi = Ok (column [z])
                /\ inner A phi psi = Ok (column [conjugate A z])).
Proof.
  intros Hpsi Hphi. split.
  - intros Hne. destruct Hpsi as (_ & Hr & _), Hphi as (_ & Hr' & _).
    unfold inner, mmul.
    change (cols (dagger A (vec psi))) with (rows (vec psi)).
    rewrite Hr, Hr'. apply Nat.eqb_neq in Hne. now rewrite Hne.
  - intros <-. eexists. split; [now apply (inner_table d1)|].
    rewrite (inner_table d1) by assumption. do 3 f_equal.
    rewrite sum_n_conj. apply sum_n_ext. intros k _.
    rewrite (law_conj_mul L), (law_conj_invol L).
    destruct (law_field L) as [[_ _ _ _ Hcomm _ _ _ _] _ _ _].
    apply Hcomm.
Qed.

Lemma inner_conjugate_symmetry_witness :
  is_ket QiEngine 2 (qubit 0) /\ is_ket QiEngine 2 (qubit 1)
  /\ exists z, inner QiEngine (qubit 0) (qubit 1) = Ok (column [z])
               /\ inner QiEngine (qubit 1) (qubit 0)
                  = Ok (column [conjugate QiEngine z]).
Proof.
  split; [apply qubit_is_ket|]. split; [apply qubit_is_ket|].
  exact (proj2 (inner_conjugate_symmetry QiEngine QiEngine_lawful 2 2
                  (qubit 0) (qubit 1) (qubit_is_ket 0) (qubit_is_ket 1))
           eq_refl).
Defined.

(** ** [MixedState.density_matrix] *)

Section DensityShapes.
Variable A : Provider.
Local Abbreviation Mx := (Matrix (Scalar A)).

Lemma accumulate_app (ens1 ens2 : Ensemble A) (rho : Mx) :
  accumulate A (ens1 ++ ens2) rho
  = (rho' <- accumulate A ens1 rho ;; accumulate A ens2 rho').
Proof.
  revert rho. induction ens1 as [|[p psi] rest IH]; intros rho; cbn.
  - reflexivity.
  - destruct (mmul A _ _) as [outer|]; cbn [bind]; [|reflexivity].
    destruct (madd A _ _) as [rho'|]; cbn [bind]; [apply IH | reflexivity].
Qed.

(** Over kets of dimension [d] the loop of [density_matrix] keeps a
    [d] x [d] accumulator and raises nothing. *)
Lemma accumulate_kets d (ens : Ensemble A) (rho : Mx) :
  kets A d ens -> rows rho = d -> cols rho = d ->
  exists R, accumulate A ens rho = Ok R /\ rows R = d /\ cols R = d.
Proof.
  intros Hk. revert rho.
  induction Hk as [|[p psi] rest (Hwf & Hr & Hc) _ IH]; intros rho Hrr Hcr.
  - exists rho. now repeat split.
  - cbn [accumulate snd] in *. unfold mmul.
    change (rows (dagger A (vec psi))) with (cols (vec psi)).
    rewrite Nat.eqb_refl. cbn [bind]. unfold madd.
    cbn [mscale mmap rows cols tabulate].
    change (cols (dagger A (vec psi))) with (rows (vec psi)).
    rewrite Hrr, Hcr, Hr, !Nat.eqb_refl. cbn [andb bind].
    apply IH; reflexivity.
Qed.
Lemma density_matrix_cons p0 (psi0 : PureState A) (rest : Ensemble A) :
  density_matrix A (mkMixedState ((p0, psi0) :: rest))
  = (rho <- accumulate A ((p0, psi0) :: rest) (mzeros A (rows (vec psi0))) ;;
     Ok (msimplify A rho)).
Proof. reflexivity. Qed.
End DensityShapes.

(** X10: [density_matrix] takes the dimension from the first state and
    raises [ShapeError] at the first state of another dimension: an
    ensemble of kets of dimension [d] followed by a ket of a different
    dimension has no density matrix, whatever comes after it -- and the
    constructor, which checks the probabilities only, does not reject
    it. *)
Theorem density_matrix_mixed_dimensions (A : Provider) (d d' : nat)
  (ens1 ens2 : Ensemble A) (p : Scalar A) (psi : PureState A) :
  kets A d ens1 -> ens1 <> [] -> is_ket A d' psi -> d' <> d ->
  density_matrix A (mkMixedState (ens1 ++ (p, psi) :: ens2)) = Raise ShapeError
  /\ is_ok (MixedState_init A (ens1 ++ (p, psi) :: ens2))
     = negb (ne0 A (residual A (ens1 ++ (p, psi) :: ens2))).
Proof.
  intros Hk Hne (Hwf & Hr & Hc) Hd. split.
  - destruct ens1 as [|[p0 psi0] rest]; [congruence|].
    assert (H0 : rows (vec psi0) = d).
    { inversion Hk as [|? ? (_ & H & _) _]. exact H. }
    rewrite <- app_comm_cons, density_matrix_cons, app_comm_cons.
    rewrite accumulate_app, H0.
    destruct (accumulate_kets A d _ (mzeros A d) Hk eq_refl eq_refl)
      as (R & -> & HrR & HcR).
    cbn [bind accumulate]. unfold mmul.
    change (rows (dagger A (vec psi))) with (cols (vec psi)).
    rewrite Nat.eqb_refl. cbn [bind]. unfold madd.
    cbn [mscale mmap rows cols tabulate]. rewrite HrR, Hr.
    apply Nat.eqb_neq in Hd. rewrite (Nat.eqb_sym d d'), Hd. reflexivity.
  - unfold MixedState_init. now destruct (ne0 A _).
Qed.

Lemma density_matrix_mixed_dimensions_witness :
  kets QiEngine 2 [(Qi_of_Q (1 # 2), qubit 0)]
  /\ is_ket QiEngine 3 qutrit
  /\ 3 <> 2
  /\ density_matrix QiEngine
       (@mkMixedState QiEngine ([(Qi_of_Q (1 # 2), qubit 0)]
                                ++ (Qi_of_Q (1 # 2), qutrit) :: []))
     = Raise ShapeError.
Proof.
  assert (Hk : kets QiEngine 2 [(Qi_of_Q (1 # 2), qubit 0)])
    by (apply Forall_cons; [apply qubit_is_ket | apply Forall_nil]).
  assert (Hq : is_ket QiEngine 3 qutrit)
    by (split; [apply wf_tabulate | split; reflexivity]).
  assert (Hd : 3 <> 2) by discriminate.
  split; [exact Hk|]. split; [exact Hq|]. split; [exact Hd|].
  refine (proj1 (density_matrix_mixed_dimensions QiEngine 2 3
                   [(Qi_of_Q (1 # 2), qubit 0)] [] (Qi_of_Q (1 # 2)) qutrit
                   Hk _ Hq Hd)).
  discriminate.
Defined.

Section Mixtures.
Context {A : Provider} {L : Lawful A}.
Local Abbreviation Sc := (Scalar A).
Local Abbreviation Mx := (Matrix (Scalar A)).

Add Field mixture_field : (law_field L).

Lemma mixture_permutation (ens ens' : Ensemble A) i j :
  Permutation ens ens' -> mixture A ens i j = mixture A ens' i j.
Proof.
  induction 1 as [| [p psi] l l' _ IH | [p psi] [q phi] l | l l' l'' _ IH1 _ IH2];
    cbn [mixture].
  - reflexivity.
  - now rewrite IH.
  - ring.
  - now rewrite IH1.
Qed.

Lemma total_permutation (ens ens' : Ensemble A) :
  Permutation ens ens' -> total A ens = total A ens'.
Proof.
  induction 1 as [| [p psi] l l' _ IH | [p psi] [q phi] l | l l' l'' _ IH1 _ IH2].
  - reflexivity.
  - now rewrite !total_cons, IH.
  - rewrite !total_cons. ring.
  - now rewrite IH1.
Qed.

(** The density matrix of a normalized pure state is a projector. *)
Lemma pure_mixture_idempotent d (psi : PureState A) :
  is_ket A d psi -> normalized A psi ->
  mmul A (tabulate d d (mixture A [(one A, psi)]))
         (tabulate d d (mixture A [(one A, psi)]))
  = Ok (tabulate d d (mixture A [(one A, psi)])).
Proof.
  intros Hket Hn. pose proof (normalized_norm2 d psi Hket Hn) as Hnorm.
  unfold mmul. cbn [rows cols tabulate]. rewrite Nat.eqb_refl. f_equal.
  apply tabulate_ext. intros i j Hi Hj.
  rewrite (sum_n_ext d _
    (fun k => mul A (mul A (amp A psi i) (conjugate A (amp A psi j)))
                    (mul A (conjugate A (amp A psi k)) (amp A psi k)))).
  - rewrite sum_n_scale. fold (norm2 A d psi). rewrite Hnorm.
    cbn [mixture]. ring.
  - intros k Hk. rewrite !ent_tabulate by assumption. cbn [mixture]. ring.
Qed.
End Mixtures.

(** X11: over an exact engine neither the constructor nor the density
    matrix depends on the order of the ensemble: for kets of one dimension,
    a permutation of the ensemble is accepted exactly when the ensemble is,
    and has the same density matrix. *)
Theorem density_matrix_permutation (A : Provider) (L : Lawful A) (d : nat)
  (ens ens' : Ensemble A) :
  kets A d ens -> Permutation ens ens' ->
  density_matrix A (mkMixedState ens) = density_matrix A (mkMixedState ens')
  /\ is_ok (MixedState_init A ens) = is_ok (MixedState_init A ens').
Proof.
  intros Hk Hperm. split.
  - destruct ens as [|e rest].
    + apply Permutation_nil in Hperm. now subst.
    + assert (Hk' : kets A d ens')
        by (unfold kets; now rewrite <- Hperm).
      assert (Hne' : ens' <> []).
      { intros ->. apply Permutation_sym, Permutation_nil in Hperm.
        discriminate Hperm. }
      rewrite (density_matrix_table d) by (cbn [ensemble]; (discriminate || assumption)).
      rewrite (density_matrix_table d (mkMixedState ens')) by assumption.
      cbn [ensemble]. f_equal. apply tabulate_ext. intros i j _ _.
      now apply mixture_permutation.
  - unfold MixedState_init, residual.
    rewrite (total_permutation ens ens' Hperm).
    now destruct (ne0 A _).
Qed.

Lemma density_matrix_permutation_witness :
  kets QiEngine 2 mixed_qubit
  /\ Permutation mixed_qubit (rev mixed_qubit)
  /\ density_matrix QiEngine (mkMixedState mixed_qubit)
     = density_matrix QiEngine (mkMixedState (rev mixed_qubit)).
Proof.
  split; [exact mixed_qubit_kets|]. split; [apply Permutation_rev|].
  exact (proj1 (density_matrix_permutation QiEngine QiEngine_lawful 2
                  mixed_qubit (rev mixed_qubit) mixed_qubit_kets
                  (Permutation_rev mixed_qubit))).
Defined.

(** X12: over an exact engine the density matrix of a normalized pure
    state promoted by [to_mixed()] is a projector: it is its own square. *)
Theorem pure_density_matrix_idempotent (A : Provider) (L : Lawful A) (d : nat)
  (psi : PureState A) :
  is_ket A d psi -> normalized A psi ->
  exists m rho,
    to_mixed A psi (one A) = Ok m
    /\ density_matrix A m = Ok rho
    /\ mmul A rho rho = Ok rho.
Proof.
  intros Hket Hn.
  exists (mkMixedState [(one A, psi)]), (tabulate d d (mixture A [(one A, psi)])).
  split; [now apply to_mixed_weight_one|].
  split.
  - apply density_matrix_table; cbn [ensemble]; [discriminate|].
    apply Forall_cons; [exact Hket | apply Forall_nil].
  - now apply pure_mixture_idempotent.
Qed.

Lemma pure_density_matrix_idempotent_witness :
  is_ket QiEngine 2 (qubit 0) /\ normalized QiEngine (qubit 0)
  /\ exists m rho,
       to_mixed QiEngine (qubit 0) (one QiEngine) = Ok m
       /\ density_matrix QiEngine m = Ok rho
       /\ mmul QiEngine rho rho = Ok rho.
Proof.
  assert (Hn : normalized QiEngine (qubit 0)) by (apply qubit_normalized; lia).
  split; [apply qubit_is_ket|]. split; [exact Hn|].
  exact (pure_density_matrix_idempotent QiEngine QiEngine_lawful 2 (qubit 0)
           (qubit_is_ket 0) Hn).
Defined.

(** ** [MixedState.measure] *)

Section MeasureOnSquares.
Context {A : Provider} {L : Lawful A}.
Hypothesis Dg : Diagonalizes A.
Local Abbreviation Sc := (Scalar A).
Local Abbreviation Mx := (Matrix (Scalar A)).

(** The probability [measure] computes for one [d] x [d] projector. *)
Lemma probabilities_square d (rho : Mx) (projectors : list Mx) :
  rows rho = d -> cols rho = d ->
  Forall (fun proj => rows proj = d /\ cols proj = d) projectors ->
  probabilities A rho projectors
  = Ok (map (fun proj =>
          simplify A (sum_n A d (fun i =>
            ent A (tabulate d d (fun i j =>
              sum_n A d (fun k => mul A (ent A proj i k) (ent A rho k j)))) i i)))
          projectors).
Proof.
  intros Hr Hc Hall.
  induction Hall as [|proj rest [Hrp Hcp] _ IH]; cbn [probabilities map].
  - reflexivity.
  - unfold mmul. rewrite Hcp, Hr, Nat.eqb_refl. cbn [bind].
    unfold mtrace. cbn [rows cols tabulate]. rewrite Hrp, Hc, Nat.eqb_refl.
    cbn [bind]. rewrite IH. reflexivity.
Qed.

(** On projectors of the dimension of the state, the selected branch ends
    in [MatrixError] or [AttributeError]. *)
Lemma collapse_on_squares d (rho proj : Mx) projectors k :
  0 < d -> rows rho = d -> cols rho = d ->
  nth_error projectors k = Some proj -> rows proj = d -> cols proj = d ->
  collapse A rho projectors k = Raise MatrixError
  \/ collapse A rho projectors k = Raise (AttributeError "col_insert").
Proof.
  intros Hd Hr Hc Hnth Hrp Hcp.
  destruct (collapse A rho projectors k) as [r|e] eqn:Hcol.
  { exfalso. now apply (collapse_never_returns A minus_one_nonzero) in Hcol. }
  unfold collapse in Hcol. rewrite Hnth in Hcol.
  unfold mmul at 1 in Hcol. rewrite Hcp, Hr, Nat.eqb_refl in Hcol.
  cbn [bind] in Hcol.
  unfold mmul in Hcol. cbn [rows cols tabulate] in Hcol.
  rewrite Hc, Hrp, Hcp, Nat.eqb_refl in Hcol. cbn [bind] in Hcol.
  unfold mtrace in Hcol. cbn [msimplify mmap rows cols tabulate] in Hcol.
  rewrite Nat.eqb_refl in Hcol. cbn [bind] in Hcol.
  match type of Hcol with context [diagonalize A ?X] => set (rho_post := X) in Hcol end.
  assert (Hwf : wf rho_post) by (apply wf_mmap, wf_mmap, wf_tabulate).
  assert (Hsq : rows rho_post = cols rho_post) by reflexivity.
  destruct (diagonalize A rho_post) as [[P D]|] eqn:Hdiag.
  2: { left. now symmetry. }
  right.
  destruct (diag_shape A Dg rho_post P D Hwf Hsq Hdiag)
    as (HwfP & HwfD & HrP & HcP & HrD & HcD).
  destruct (diag_invertible A Dg rho_post P D Hwf Hsq Hdiag)
    as (Q & _ & HrQ & HcQ & Hinv).
  assert (Hrows : rows rho_post = d) by reflexivity.
  rewrite Hrows in HrP, HcP, HrD, HcD, HrQ, HcQ, Hinv.
  rewrite (reconstruct_invertible d P D Q) in Hcol by assumption.
  now symmetry.
Qed.
End MeasureOnSquares.

(** X13: over an exact engine with a genuine [diagonalize], [measure] on a
    constructed state of kets of dimension [d] and projectors that are all
    [d] x [d] ends in one of three exceptions and nothing else: the
    [RuntimeError] when every probability is 0, and otherwise
    [MatrixError] when the post-measurement matrix is not diagonalized or
    the [AttributeError] of the reconstruction loop when it is. *)
Theorem measure_outcomes (A : Provider) (L : Lawful A) (Dg : Diagonalizes A)
  (d : nat) (ens : Ensemble A) (m : MixedState A)
  (projectors : list (Matrix (Scalar A))) :
  kets A d ens ->
  MixedState_init A ens = Ok m ->
  Forall (fun proj => rows proj = d /\ cols proj = d) projectors ->
  measure A m projectors = Raise DegenerateMeasurementError
  \/ measure A m projectors = Raise MatrixError
  \/ measure A m projectors = Raise (AttributeError "col_insert").
Proof.
  intros Hk Hm Hall.
  pose proof (constructed_nonempty ens m Hm) as Hne.
  apply MixedState_init_ok in Hm as [-> _]. cbn [ensemble] in Hne.
  unfold measure.
  rewrite (density_matrix_table d) by assumption. cbn [bind ensemble].
  rewrite (probabilities_square d) by (reflexivity || assumption).
  cbn [bind]. rewrite select_first_nonzero.
  match goal with |- context [first_nonzero A ?ps 0] => set (probs := ps) end.
  destruct (first_nonzero A probs 0) as [k|] eqn:Hfirst; [|now left].
  right.
  apply first_nonzero_spec in Hfirst as (_ & Hlt & (p & Hp & Hnz) & _).
  rewrite Nat.sub_0_r in Hlt, Hp.
  subst probs. rewrite length_map in Hlt.
  destruct (nth_error projectors k) as [proj|] eqn:Hproj.
  2: { apply nth_error_None in Hproj. lia. }
  rewrite (map_nth_error _ _ _ Hproj) in Hp. injection Hp as <-.
  assert (Hshape : rows proj = d /\ cols proj = d).
  { rewrite Forall_forall in Hall. apply Hall. eapply nth_error_In, Hproj. }
  destruct Hshape as [Hrp Hcp].
  assert (Hd : 0 < d).
  { destruct d as [|d']; [|lia]. cbn in Hnz.
    rewrite (law_simplify L), ne0_zero in Hnz. discriminate Hnz. }
  now apply (collapse_on_squares Dg d _ proj).
Qed.

Lemma measure_outcomes_witness :
  kets QiEngine 2 mixed_qubit
  /\ MixedState_init QiEngine mixed_qubit = Ok (mkMixedState mixed_qubit)
  /\ Forall (fun proj : Matrix Qi => rows proj = 2 /\ cols proj = 2)
       computational_basis
  /\ (measure QiEngine (mkMixedState mixed_qubit) computational_basis
      = Raise DegenerateMeasurementError
      \/ measure QiEngine (mkMixedState mixed_qubit) computational_basis
         = Raise MatrixError
      \/ measure QiEngine (mkMixedState mixed_qubit) computational_basis
         = Raise (AttributeError "col_insert")).
Proof.
  assert (Hm : MixedState_init QiEngine mixed_qubit
               = Ok (mkMixedState mixed_qubit)) by reflexivity.
  assert (Hall : Forall (fun proj : Matrix Qi => rows proj = 2 /\ cols proj = 2)
                   computational_basis).
  { apply Forall_cons; [split; reflexivity|].
    apply Forall_cons; [split; reflexivity | apply Forall_nil]. }
  split; [exact mixed_qubit_kets|]. split; [exact Hm|]. split; [exact Hall|].
  exact (measure_outcomes QiEngine QiEngine_lawful QiEngine_diagonalizes 2
           mixed_qubit (mkMixedState mixed_qubit) computational_basis
           mixed_qubit_kets Hm Hall).
Defined.

Lemma measure_degenerate_iff_zero (A : Provider) (m : MixedState A)
  (projectors : list (Matrix (Scalar A))) :
  measure A m projectors = Raise DegenerateMeasurementError ->
  exists rho probs,
    density_matrix A m = Ok rho
    /\ probabilities A rho projectors = Ok probs
    /\ forallb (fun p => negb (ne0 A p)) probs = true.
Proof.
  unfold measure. intros H.
  apply bind_raise in H as [H | (rho & Hrho & H)].
  { apply density_matrix_raise in H as [H | [H | H]]; discriminate H. }
  apply bind_raise in H as [H | (probs & Hprobs & H)].
  { apply probabilities_raise in H as [H | H]; discriminate H. }
  exists rho, probs. split; [exact Hrho|]. split; [exact Hprobs|].
  now apply select_degenerate in H.
Qed.

Section BornRule.
Context {A : Provider} {L : Lawful A}.
Local Abbreviation Sc := (Scalar A).
Local Abbreviation Mx := (Matrix (Scalar A)).

Add Field born_field : (law_field L).

(** The probabilities of a list of [d] x [d] projectors add up to the trace
    of the sum of the projectors times [rho]. *)
Lemma probabilities_sum d (f : nat -> nat -> Sc) (projectors : list Mx) :
  fold_right (add A) (zero A)
    (map (fun proj =>
       simplify A (sum_n A d (fun i =>
         ent A (tabulate d d (fun i j =>
           sum_n A d (fun k => mul A (ent A proj i k) (f k j)))) i i)))
       projectors)
  = sum_n A d (fun i =>
      sum_n A d (fun k => mul A (projector_sum A projectors i k) (f k i))).
Proof.
  induction projectors as [|proj rest IH]; cbn [map fold_right projector_sum].
  - symmetry. apply sum_n_all_zero. intros i _.
    apply sum_n_all_zero. intros k _. ring.
  - rewrite IH, (law_simplify L), <- sum_n_add. apply sum_n_ext. intros i Hi.
    rewrite ent_tabulate by assumption. rewrite <- sum_n_add.
    apply sum_n_ext. intros k _. fold (projector_sum A rest i k). ring.
Qed.

Lemma complete_sum d (f : nat -> nat -> Sc) (projectors : list Mx) :
  complete A d projectors ->
  sum_n A d (fun i =>
    sum_n A d (fun k => mul A (projector_sum A projectors i k) (f k i)))
  = sum_n A d (fun i => f i i).
Proof.
  intros Hc. apply sum_n_ext. intros i Hi.
  rewrite <- (sum_n_delta_l d i (fun k => f k i) Hi).
  apply sum_n_ext. intros k Hk. now rewrite Hc.
Qed.

Lemma all_zero_sum (ps : list Sc) :
  forallb (fun p => negb (ne0 A p)) ps = true ->
  fold_right (add A) (zero A) ps = zero A.
Proof.
  induction ps as [|p ps IH]; cbn [forallb fold_right]; [reflexivity|].
  intros H. apply andb_true_iff in H as [Hp Hps].
  apply negb_true_iff, (law_ne0 L) in Hp. rewrite Hp, IH by assumption. ring.
Qed.
End BornRule.

(** X14: over an exact engine, for a constructed state of normalized kets
    of dimension [d] and [d] x [d] projectors that sum to the identity, the
    probabilities [measure] computes add up to 1, so [measure] does not
    raise the [RuntimeError] of the all-zero case. *)
Theorem measure_complete_projectors (A : Provider) (L : Lawful A) (d : nat)
  (ens : Ensemble A) (m : MixedState A)
  (projectors : list (Matrix (Scalar A))) :
  kets A d ens ->
  Forall (fun e => normalized A (snd e)) ens ->
  MixedState_init A ens = Ok m ->
  Forall (fun proj => rows proj = d /\ cols proj = d) projectors ->
  complete A d projectors ->
  (exists rho probs,
      density_matrix A m = Ok rho
      /\ probabilities A rho projectors = Ok probs
      /\ fold_right (add A) (zero A) probs = one A)
  /\ measure A m projectors <> Raise DegenerateMeasurementError.
Proof.
  intros Hk Hn Hm Hall Hc.
  pose proof (constructed_nonempty ens m Hm) as Hne.
  apply MixedState_init_exact in Hm as [-> Htotal]. cbn [ensemble] in Hne.
  assert (Hrho : density_matrix A (mkMixedState ens)
                 = Ok (tabulate d d (mixture A ens)))
    by now apply density_matrix_table.
  assert (Hprobs := probabilities_square d (tabulate d d (mixture A ens))
                      projectors eq_refl eq_refl Hall).
  assert (Hsum :
    fold_right (add A) (zero A)
      (map (fun proj =>
         simplify A (sum_n A d (fun i =>
           ent A (tabulate d d (fun i j =>
             sum_n A d (fun k =>
               mul A (ent A proj i k)
                     (ent A (tabulate d d (mixture A ens)) k j)))) i i)))
         projectors)
    = one A).
  { rewrite (probabilities_sum d (ent A (tabulate d d (mixture A ens)))).
    rewrite (complete_sum d _ projectors Hc).
    rewrite <- Htotal, <- (trace_normalized d ens Hk Hn).
    apply sum_n_ext. intros i Hi. now rewrite ent_tabulate. }
  split.
  - eexists. eexists. split; [exact Hrho|]. split; [exact Hprobs | exact Hsum].
  - intros Hdeg. apply measure_degenerate_iff_zero in Hdeg
      as (rho & probs & Hrho' & Hprobs' & Hzero).
    rewrite Hrho in Hrho'. injection Hrho' as <-.
    rewrite Hprobs in Hprobs'. injection Hprobs' as <-.
    apply all_zero_sum in Hzero. rewrite Hsum in Hzero.
    now apply one_neq_zero in Hzero.
Qed.

Lemma measure_complete_projectors_witness :
  kets QiEngine 2 mixed_qubit
  /\ Forall (fun e => normalized QiEngine (snd e)) mixed_qubit
  /\ MixedState_init QiEngine mixed_qubit = Ok (mkMixedState mixed_qubit)
  /\ Forall (fun proj : Matrix Qi => rows proj = 2 /\ cols proj = 2)
       computational_basis
  /\ complete QiEngine 2 computational_basis
  /\ measure QiEngine (mkMixedState mixed_qubit) computational_basis
     <> Raise DegenerateMeasurementError.
Proof.
  assert (Hn : Forall (fun e => normalized QiEngine (snd e)) mixed_qubit).
  { apply Forall_cons; [apply qubit_normalized; lia|].
    apply Forall_cons; [apply qubit_normalized; lia | apply Forall_nil]. }
  assert (Hm : MixedState_init QiEngine mixed_qubit
               = Ok (mkMixedState mixed_qubit)) by reflexivity.
  assert (Hall : Forall (fun proj : Matrix Qi => rows proj = 2 /\ cols proj = 2)
                   computational_basis).
  { apply Forall_cons; [split; reflexivity|].
    apply Forall_cons; [split; reflexivity | apply Forall_nil]. }
  assert (Hc : complete QiEngine 2 computational_basis).
  { intros i k Hi Hk.
    destruct i as [|[|i]]; [| |lia]; destruct k as [|[|k]]; try lia; qi_eq. }
  split; [exact mixed_qubit_kets|]. split; [exact Hn|]. split; [exact Hm|].
  split; [exact Hall|]. split; [exact Hc|].
  exact (proj2 (measure_complete_projectors QiEngine QiEngine_lawful 2
                  mixed_qubit (mkMixedState mixed_qubit) computational_basis
                  mixed_qubit_kets Hn Hm Hall Hc)).
Defined.

Section MisshapedProjectors.
Variable A : Provider.
Local Abbreviation Mx := (Matrix (Scalar A)).

Lemma density_matrix_shape d (m : MixedState A) :
  ensemble m <> [] -> kets A d (ensemble m) ->
  exists rho, density_matrix A m = Ok rho /\ rows rho = d /\ cols rho = d.
Proof.
  intros Hne Hk. destruct m as [ens]. cbn [ensemble] in *.
  destruct ens as [|[p0 psi0] rest]; [congruence|].
  assert (H0 : rows (vec psi0) = d).
  { inversion Hk as [|? ? (_ & H & _) _]. exact H. }
  rewrite density_matrix_cons, H0.
  destruct (accumulate_kets A d _ (mzeros A d) Hk eq_refl eq_refl)
    as (R & -> & HrR & HcR).
  cbn [bind]. exists (msimplify A R). now repeat split.
Qed.

(** A projector that is not [d] x [d] stops the computation of the
    probabilities with an error of the matrix library. *)
Lemma probabilities_misshaped d (rho : Mx) (projectors : list Mx) :
  rows rho = d -> cols rho = d ->
  Exists (fun proj => rows proj <> d \/ cols proj <> d) projectors ->
  exists e, probabilities A rho projectors = Raise e /\ matrix_error e.
Proof.
  intros Hr Hc Hex.
  induction projectors as [|proj rest IH]; [inversion Hex|].
  cbn [probabilities]. unfold mmul. rewrite Hr.
  destruct (Nat.eqb_spec (cols proj) d) as [Hcp|Hcp]; cbn [bind].
  2: { exists ShapeError. split; [reflexivity | now left]. }
  unfold mtrace. cbn [rows cols tabulate]. rewrite Hc.
  destruct (Nat.eqb_spec (rows proj) d) as [Hrp|Hrp]; cbn [bind].
  2: { exists NonSquareMatrixError. split; [reflexivity | now right]. }
  destruct IH as (e & -> & He).
  - inversion Hex as [? ? [H | H] | ? ? Htl]; subst; [contradiction.. | exact Htl].
  - exists e. split; [reflexivity | exact He].
Qed.
End MisshapedProjectors.

(** X15: [measure] checks no shapes itself: on a state of kets of dimension
    [d], a projector list holding a matrix that is not [d] x [d] makes it
    raise [ShapeError] or [NonSquareMatrixError] while the probabilities
    are computed, before any outcome is selected -- also when an earlier
    projector has a non-zero probability. *)
Theorem measure_misshaped_projector (A : Provider) (d : nat)
  (m : MixedState A) (projectors : list (Matrix (Scalar A))) :
  ensemble m <> [] -> kets A d (ensemble m) ->
  Exists (fun proj => rows proj <> d \/ cols proj <> d) projectors ->
  measure A m projectors = Raise ShapeError
  \/ measure A m projectors = Raise NonSquareMatrixError.
Proof.
  intros Hne Hk Hex.
  destruct (density_matrix_shape A d m Hne Hk) as (rho & Hrho & Hr & Hc).
  destruct (probabilities_misshaped A d rho projectors Hr Hc Hex)
    as (e & Hprobs & He).
  unfold measure. rewrite Hrho. cbn [bind]. rewrite Hprobs. cbn [bind].
  destruct He as [-> | ->]; [now left | now right].
Qed.

Lemma measure_misshaped_projector_witness :
  ensemble (mkMixedState mixed_qubit) <> []
  /\ kets QiEngine 2 (ensemble (mkMixedState mixed_qubit))
  /\ Exists (fun proj : Matrix Qi => rows proj <> 2 \/ cols proj <> 2)
       [basis_projector QiEngine 2 0; basis_projector QiEngine 3 1]
  /\ (measure QiEngine (mkMixedState mixed_qubit)
        [basis_projector QiEngine 2 0; basis_projector QiEngine 3 1]
      = Raise ShapeError
      \/ measure QiEngine (mkMixedState mixed_qubit)
           [basis_projector QiEngine 2 0; basis_projector QiEngine 3 1]
         = Raise NonSquareMatrixError).
Proof.
  assert (Hne : ensemble (mkMixedState mixed_qubit) <> []) by discriminate.
  assert (Hex : Exists (fun proj : Matrix Qi => rows proj <> 2 \/ cols proj <> 2)
                  [basis_projector QiEngine 2 0; basis_projector QiEngine 3 1]).
  { apply Exists_cons_tl, Exists_cons_hd. left. discriminate. }
  split; [exact Hne|]. split; [exact mixed_qubit_kets|]. split; [exact Hex|].
  exact (measure_misshaped_projector QiEngine 2 (mkMixedState mixed_qubit)
           _ Hne mixed_qubit_kets Hex).
Defined.
